(** * Salon queue: the queue coordination code of [src/App.js]

    A shallow embedding of the parts of the React/Firestore application that
    admit customers to the queue, derive a customer's position and estimated
    wait from a snapshot, and let staff advance or remove entries.

    How the code is modelled:
    - JavaScript numbers are [Z]: every number the modelled code computes is
      an integer sum, difference or product of integers, which IEEE doubles
      represent exactly below 2^53.  JavaScript strings are Rocq strings.
    - The store is a record of its collections, each a finite map from
      document ids to documents, and of the server's clock.  The operations
      of the Firestore client are modelled by what its documentation says of
      them: [addDoc] stores the document under a new id generated by the
      client, [updateDoc] fails on a document that does not exist,
      [deleteDoc] does not, a query without [orderBy] lists its documents by
      id.  Failures of the network are not modelled.
    - An [async] handler is a program over store operations and React state
      updates.  A program is run either alone or under interference, where
      other sessions change the store between two of its operations.
    - The React state of a session is one record; a click is possible only
      on a button the page renders from that state. *)

From Stdlib Require Import ZArith String Ascii List Lia.
From stdpp Require Import base option list strings gmap fin_maps sorting.

(** ** JavaScript values *)

Module Js.

(** Truthiness of a string value that may be [null]/[undefined]:
    [null], [undefined] and the empty string are falsy. *)
Definition truthy (v : option string) : bool :=
  match v with
  | None => false
  | Some EmptyString => false
  | Some (String _ _) => true
  end.

(** [a || b] on such values. *)
Definition or (a b : option string) : option string :=
  if truthy a then a else b.

(** [s.startsWith(p)] *)
Definition startsWith (s p : string) : bool := String.prefix p s.

End Js.

(** ** The document store (Firestore) *)

Module Firestore.

Abbreviation DocId := string (only parsing).

(** The value of a timestamp field in a write: either the sentinel
    returned by [serverTimestamp()], which the server replaces by its own
    time when it commits the write, or a time chosen by the client. *)
Inductive TimestampValue : Type :=
| serverTimestamp
| clientTimestamp (t : Z).

(** The fields of a document of the [queue] collection, as written by
    [addDoc] in [handleJoinQueue].  [T] is the type of [createdAt]:
    [TimestampValue] in the object handed to [addDoc], [Z] once stored. *)
Record QueueFields (T : Type) : Type := mkQueueFields {
  userId : string;
  userName : option string;
  userPhone : option string;
  serviceId : DocId;
  serviceName : string;
  serviceDuration : Z;
  status : string;
  queueNumber : Z;
  createdAt : T
}.
Arguments mkQueueFields {T}.
Arguments userId {T}.
Arguments userName {T}.
Arguments userPhone {T}.
Arguments serviceId {T}.
Arguments serviceName {T}.
Arguments serviceDuration {T}.
Arguments status {T}.
Arguments queueNumber {T}.
Arguments createdAt {T}.

Abbreviation QueueWrite := (QueueFields TimestampValue) (only parsing).
Abbreviation QueueDoc := (QueueFields Z) (only parsing).

(** Modelled from the spec: the fields of a document of the [services]
    collection.  The source reads [service.name], [service.duration],
    [service.price] and [service.description]; the form that writes them is
    cut off from the source file, so their types follow section 3 of the
    specification ([durationMinutes: int], [price: decimal], optional
    description; the price is kept in the smallest currency unit). *)
Record ServiceData : Type := mkServiceData {
  name : string;
  duration : Z;
  price : Z;
  description : option string
}.

(** The state of the store: the two collections the queue code uses and
    the server's clock, from which [serverTimestamp()] sentinels are
    resolved. *)
Record Store : Type := mkStore {
  queue : gmap DocId QueueDoc;
  services : gmap DocId ServiceData;
  serverTime : Z
}.

Inductive Collection : Type := queueCollection | servicesCollection.

(** *** Queries on the [queue] collection *)

Inductive QueryConstraint : Type :=
| where_userId_eq (uid : string)          (* where("userId", "==", uid) *)
| where_status_in (l : list string)       (* where("status", "in", l) *)
| orderBy_createdAt                       (* orderBy("createdAt") *)
| limit (n : nat).                        (* limit(n) *)

Abbreviation Query := (list QueryConstraint) (only parsing).

(** [inb s l]: the string [s] is one of [l]. *)
Definition inb (s : string) (l : list string) : bool :=
  existsb (String.eqb s) l.

Definition satisfies (d : QueueDoc) (c : QueryConstraint) : bool :=
  match c with
  | where_userId_eq uid => String.eqb (userId d) uid
  | where_status_in l => inb (status d) l
  | orderBy_createdAt => true
  | limit _ => true
  end.

Definition matches (q : Query) (d : QueueDoc) : bool :=
  forallb (satisfies d) q.

Definition is_orderBy (c : QueryConstraint) : bool :=
  match c with orderBy_createdAt => true | _ => false end.

Definition ordered (q : Query) : bool := existsb is_orderBy q.

(** The limit of a query: the last [limit] constraint, if any. *)
Fixpoint limitOf (q : Query) : option nat :=
  match q with
  | [] => None
  | limit n :: q' => match limitOf q' with Some m => Some m | None => Some n end
  | _ :: q' => limitOf q'
  end.

(** Result order: by [createdAt] when the query orders by it, ties broken
    by document id; by document id otherwise. *)
Definition doc_leb (byTime : bool) (a b : DocId * QueueDoc) : bool :=
  if byTime then
    (createdAt a.2 <? createdAt b.2)%Z
    || ((createdAt a.2 =? createdAt b.2)%Z && String.leb a.1 b.1)
  else String.leb a.1 b.1.

Definition doc_le (byTime : bool) (a b : DocId * QueueDoc) : Prop :=
  doc_leb byTime a b = true.

Global Instance doc_le_dec byTime : RelDecision (doc_le byTime).
Proof. intros a b. unfold doc_le. apply _. Defined.

Definition applyLimit {A} (o : option nat) (l : list A) : list A :=
  match o with Some n => take n l | None => l end.

(** A query snapshot: the matching documents, in result order. *)
Abbreviation QuerySnapshot := (list (DocId * QueueDoc)) (only parsing).

Definition docs (snap : QuerySnapshot) : list (DocId * QueueDoc) := snap.

(** [snapshot.empty] and [snapshot.size] *)
Definition empty (snap : QuerySnapshot) : bool :=
  match snap with [] => true | _ => false end.

Definition size (snap : QuerySnapshot) : Z := Z.of_nat (length snap).

Definition matching (q : Query) (s : Store) : list (DocId * QueueDoc) :=
  filter (λ kd, matches q kd.2 = true) (map_to_list (queue s)).

(** [getDocs(q)], and also what [onSnapshot(q, ...)] delivers. *)
Definition getDocs (q : Query) (s : Store) : QuerySnapshot :=
  applyLimit (limitOf q) (merge_sort (doc_le (ordered q)) (matching q s)).

(** *** Writes *)

Definition resolveTimestamp (s : Store) (v : TimestampValue) : Z :=
  match v with
  | serverTimestamp => serverTime s
  | clientTimestamp t => t
  end.

Definition stored (s : Store) (w : QueueWrite) : QueueDoc :=
  mkQueueFields (userId w) (userName w) (userPhone w) (serviceId w)
    (serviceName w) (serviceDuration w) (status w) (queueNumber w)
    (resolveTimestamp s (createdAt w)).

(** [addDoc(collection(db, "queue"), w)], the new document stored under
    the automatically generated id [newId]. *)
Definition addDoc (newId : DocId) (w : QueueWrite) (s : Store) : Store :=
  mkStore (<[newId := stored s w]> (queue s)) (services s) (serverTime s).

Definition setStatus (newStatus : string) (d : QueueDoc) : QueueDoc :=
  mkQueueFields (userId d) (userName d) (userPhone d) (serviceId d)
    (serviceName d) (serviceDuration d) newStatus (queueNumber d)
    (createdAt d).

(** [updateDoc(doc(db, "queue", id), { status: newStatus })].  An update
    of a document that does not exist fails ([None]). *)
Definition updateDoc (id : DocId) (newStatus : string) (s : Store)
  : option Store :=
  match queue s !! id with
  | Some d =>
      Some (mkStore (<[id := setStatus newStatus d]> (queue s))
              (services s) (serverTime s))
  | None => None
  end.

(** [deleteDoc(doc(db, c, id))]; deleting a missing document succeeds. *)
Definition deleteDoc (c : Collection) (id : DocId) (s : Store) : Store :=
  match c with
  | queueCollection =>
      mkStore (delete id (queue s)) (services s) (serverTime s)
  | servicesCollection =>
      mkStore (queue s) (delete id (services s)) (serverTime s)
  end.

End Firestore.

Import Firestore.

(** ** The state of one browser session *)

(** The [user] object supplied by the identity provider. *)
Record User : Type := mkUser {
  uid : string;
  displayName : option string;
  phoneNumber : option string
}.

(** The user's document of the [users] collection; [role] is absent when
    the document has no such field. *)
Record UserData : Type := mkUserData {
  role : option string
}.

(** The value of [AppContext]: [db] is the store handle, [None] until
    Firebase is initialised. *)
Record AppContext : Type := mkAppContext {
  user : option User;
  userData : option UserData;
  db : option unit
}.

(** [alertInfo] of [ServiceSelectionPage] *)
Record AlertInfo : Type := mkAlertInfo {
  show : bool;
  message : string
}.

(** A document as the pages keep it: [{ id: doc.id, ...doc.data() }]. *)
Abbreviation Item := (DocId * QueueDoc)%type (only parsing).
Abbreviation Service := (DocId * ServiceData)%type (only parsing).

(** The React state the modelled handlers write: the route of [App], the
    alert of [ServiceSelectionPage], the three state variables of
    [QueueStatusPage] and the two of [QueueManagementPage]. *)
Record Ui : Type := mkUi {
  route : string;
  alertInfo : AlertInfo;
  queueEntry : option Item;
  queuePosition : Z;
  estimatedWait : Z;
  queueList : list Item;                 (* [queue] of QueueManagementPage *)
  confirmingDelete : option DocId
}.

(** The state setters the handlers call. *)
Inductive UiAction : Type :=
| navigate (path : string)
| setAlertInfo (a : AlertInfo)
| setQueueEntry (e : option Item)
| setQueuePosition (p : Z)
| setEstimatedWait (w : Z)
| setQueue (l : list Item)
| setConfirmingDelete (v : option DocId).

Definition applyUi (a : UiAction) (u : Ui) : Ui :=
  match a with
  | navigate path =>
      mkUi path (alertInfo u) (queueEntry u) (queuePosition u)
        (estimatedWait u) (queueList u) (confirmingDelete u)
  | setAlertInfo x =>
      mkUi (route u) x (queueEntry u) (queuePosition u)
        (estimatedWait u) (queueList u) (confirmingDelete u)
  | setQueueEntry e =>
      mkUi (route u) (alertInfo u) e (queuePosition u)
        (estimatedWait u) (queueList u) (confirmingDelete u)
  | setQueuePosition p =>
      mkUi (route u) (alertInfo u) (queueEntry u) p
        (estimatedWait u) (queueList u) (confirmingDelete u)
  | setEstimatedWait w =>
      mkUi (route u) (alertInfo u) (queueEntry u) (queuePosition u)
        w (queueList u) (confirmingDelete u)
  | setQueue l =>
      mkUi (route u) (alertInfo u) (queueEntry u) (queuePosition u)
        (estimatedWait u) l (confirmingDelete u)
  | setConfirmingDelete v =>
      mkUi (route u) (alertInfo u) (queueEntry u) (queuePosition u)
        (estimatedWait u) (queueList u) v
  end.

(** ** Handlers as programs over store operations

    An [async] handler is a tree of store operations and state updates; each
    [await] is a node whose continuation receives the operation's result. *)

Inductive FirestoreError : Type :=
| not_found            (* update of a document that does not exist *)
| invalid_argument.    (* [doc(db, ...)] with [db] undefined *)

Inductive Prog (A : Type) : Type :=
| Ret (a : A)
| Throw (e : FirestoreError)
| GetDocs (q : Query) (k : QuerySnapshot → Prog A)
| AddDoc (w : QueueWrite) (k : Prog A)
| UpdateDoc (id : DocId) (newStatus : string) (k : Prog A)
| DeleteDoc (c : Collection) (id : DocId) (k : Prog A)
| SetState (a : UiAction) (k : Prog A).
Arguments Ret {A}.
Arguments Throw {A}.
Arguments GetDocs {A}.
Arguments AddDoc {A}.
Arguments UpdateDoc {A}.
Arguments DeleteDoc {A}.
Arguments SetState {A}.

Fixpoint prog_bind {A B} (f : A → Prog B) (p : Prog A) : Prog B :=
  match p with
  | Ret a => f a
  | Throw e => Throw e
  | GetDocs q k => GetDocs q (λ snap, prog_bind f (k snap))
  | AddDoc w k => AddDoc w (prog_bind f k)
  | UpdateDoc id st k => UpdateDoc id st (prog_bind f k)
  | DeleteDoc c id k => DeleteDoc c id (prog_bind f k)
  | SetState a k => SetState a (prog_bind f k)
  end.

Global Instance Prog_ret : MRet Prog := @Ret.
Global Instance Prog_bind : MBind Prog := @prog_bind.

(** One node each, so that handlers read like the source. *)
Definition await_getDocs (q : Query) : Prog QuerySnapshot := GetDocs q Ret.
Definition await_addDoc (w : QueueWrite) : Prog unit := AddDoc w (Ret tt).
Definition await_updateDoc (id : DocId) (st : string) : Prog unit :=
  UpdateDoc id st (Ret tt).
Definition await_deleteDoc (c : Collection) (id : DocId) : Prog unit :=
  DeleteDoc c id (Ret tt).
Definition setState (a : UiAction) : Prog unit := SetState a (Ret tt).

(** *** Running a program *)

(** The store operations a run performs, in order. *)
Inductive StoreOp : Type :=
| OpGetDocs (q : Query)
| OpAddDoc (id : DocId) (w : QueueWrite)
| OpUpdateDoc (id : DocId) (newStatus : string)
| OpDeleteDoc (c : Collection) (id : DocId).

(** How the promise of an [async] handler settles. *)
Inductive Outcome (A : Type) : Type :=
| Resolved (a : A)
| Rejected (e : FirestoreError).
Arguments Resolved {A}.
Arguments Rejected {A}.

(** The store together with one session: its React state and the ids its
    Firestore client generates for new documents ([autoId n] is the n-th). *)
Record World : Type := mkWorld {
  store : Store;
  ui : Ui;
  autoId : nat → DocId;
  issued : nat
}.

Definition withStore (s : Store) (w : World) : World :=
  mkWorld s (ui w) (autoId w) (issued w).

Record Result (A : Type) : Type := mkResult {
  outcome : Outcome A;
  final : World;
  ops : list StoreOp
}.
Arguments mkResult {A}.
Arguments outcome {A}.
Arguments final {A}.
Arguments ops {A}.

Definition logged {A} (o : StoreOp) (r : Result A) : Result A :=
  mkResult (outcome r) (final r) (o :: ops r).

(** A run without interference: no other session writes to the store
    between two operations of the program. *)
Fixpoint run {A} (p : Prog A) (w : World) : Result A :=
  match p with
  | Ret a => mkResult (Resolved a) w []
  | Throw e => mkResult (Rejected e) w []
  | GetDocs q k =>
      logged (OpGetDocs q) (run (k (getDocs q (store w))) w)
  | AddDoc d k =>
      let id := autoId w (issued w) in
      logged (OpAddDoc id d)
        (run k (mkWorld (addDoc id d (store w)) (ui w) (autoId w)
                  (S (issued w))))
  | UpdateDoc id st k =>
      match updateDoc id st (store w) with
      | Some s' => logged (OpUpdateDoc id st) (run k (withStore s' w))
      | None => mkResult (Rejected not_found) w [OpUpdateDoc id st]
      end
  | DeleteDoc c id k =>
      logged (OpDeleteDoc c id) (run k (withStore (deleteDoc c id (store w)) w))
  | SetState a k =>
      run k (mkWorld (store w) (applyUi a (ui w)) (autoId w) (issued w))
  end.

(** A run under interference: [env n] is what the other sessions do to the
    store just before the [n]-th store operation of the program. *)
Fixpoint runWith {A} (env : nat → Store → Store) (n : nat) (p : Prog A)
  (w : World) : Result A :=
  match p with
  | Ret a => mkResult (Resolved a) w []
  | Throw e => mkResult (Rejected e) w []
  | GetDocs q k =>
      let w1 := withStore (env n (store w)) w in
      logged (OpGetDocs q) (runWith env (S n) (k (getDocs q (store w1))) w1)
  | AddDoc d k =>
      let w1 := withStore (env n (store w)) w in
      let id := autoId w1 (issued w1) in
      logged (OpAddDoc id d)
        (runWith env (S n) k
           (mkWorld (addDoc id d (store w1)) (ui w1) (autoId w1)
              (S (issued w1))))
  | UpdateDoc id st k =>
      let w1 := withStore (env n (store w)) w in
      match updateDoc id st (store w1) with
      | Some s' =>
          logged (OpUpdateDoc id st) (runWith env (S n) k (withStore s' w1))
      | None => mkResult (Rejected not_found) w1 [OpUpdateDoc id st]
      end
  | DeleteDoc c id k =>
      let w1 := withStore (env n (store w)) w in
      logged (OpDeleteDoc c id)
        (runWith env (S n) k (withStore (deleteDoc c id (store w1)) w1))
  | SetState a k =>
      runWith env n k (mkWorld (store w) (applyUi a (ui w)) (autoId w) (issued w))
  end.

(** ** ServiceSelectionPage: joining the queue *)

Definition active : list string := ["waiting"; "in-service"].

(** The query for the active entries of one user. *)
Definition ownActiveQuery (u : User) : Query :=
  [where_userId_eq (uid u); where_status_in active].

(** The query for all active entries. *)
Definition allActiveQuery : Query := [where_status_in active].

(** The object [handleJoinQueue] hands to [addDoc]. *)
Definition newEntry (u : User) (service : Service) (number : Z) : QueueWrite :=
  {| userId := uid u;
     userName := Js.or (displayName u) (phoneNumber u);
     userPhone := phoneNumber u;
     serviceId := service.1;
     serviceName := name service.2;
     serviceDuration := duration service.2;
     status := "waiting";
     queueNumber := number;
     createdAt := serverTimestamp |}.

Definition handleJoinQueue (ctx : AppContext) (service : Service) : Prog unit :=
  match user ctx, db ctx with
  | Some u, Some _ =>
      existingQueueSnapshot ← await_getDocs (ownActiveQuery u);
      if negb (empty existingQueueSnapshot) then
        setState (setAlertInfo (mkAlertInfo true "You are already in the queue."))
      else
        allQueueSnapshot ← await_getDocs allActiveQuery;
        await_addDoc (newEntry u service (size allQueueSnapshot + 1));;
        setState (navigate "/queue-status")
  | _, _ => mret tt                       (* if (!user || !db) return; *)
  end.

(** ** QueueStatusPage: position and estimated wait *)

(** The subscription to the user's own active entry. *)
Definition ownEntryQuery (u : User) : Query :=
  [where_userId_eq (uid u); where_status_in active; limit 1].

Definition onOwnEntrySnapshot (snapshot : QuerySnapshot) : Prog unit :=
  match docs snapshot with
  | entry :: _ => setState (setQueueEntry (Some entry))
  | [] => setState (setQueueEntry None);; setState (navigate "/services")
  end.

(** The subscription to the whole active queue, in order of arrival. *)
Definition orderedActiveQuery : Query :=
  [where_status_in active; orderBy_createdAt].

(** The three variables of the snapshot callback. *)
Record Scan : Type := mkScan {
  position : Z;
  waitTime : Z;
  found : bool
}.

(** [array.forEach((x, index) => ...)] over a state [St]. *)
Fixpoint forEach {St A} (f : St → A → nat → St) (l : list A) (index : nat)
  (s : St) : St :=
  match l with
  | [] => s
  | x :: l' => forEach f l' (S index) (f s x index)
  end.

(** The body of the [forEach] callback. *)
Definition visit (u : User) (sc : Scan) (doc : Item) (index : nat) : Scan :=
  let data := doc.2 in
  let sc1 :=
    if String.eqb (userId data) (uid u)
    then mkScan (Z.of_nat index + 1) (waitTime sc) true
    else sc in
  if negb (found sc1) && String.eqb (status data) "waiting"
  then mkScan (position sc1) (waitTime sc1 + serviceDuration data) (found sc1)
  else sc1.

Definition scan (u : User) (snapshot : QuerySnapshot) : Scan :=
  forEach (visit u) (docs snapshot) 0 (mkScan 0 0 false).

Definition onQueueSnapshot (u : User) (snapshot : QuerySnapshot) : Prog unit :=
  let sc := scan u snapshot in
  setState (setQueuePosition (position sc));;
  setState (setEstimatedWait (waitTime sc)).

(** The width of the progress bar, in percent:
    [Math.max(0, 100 - ((queuePosition - 1) * 25))]. *)
Definition barWidth (queuePosition : Z) : Z :=
  Z.max 0 (100 - ((queuePosition - 1) * 25)).

(** What [QueueStatusPage] renders. *)
Inductive StatusView : Type :=
| NotInQueueView                          (* "You are not in the queue." *)
| InServiceView (serviceName : string)    (* "You are now in service" *)
| PositionView (position : Z) (wait : Z) (width : Z).

Definition renderQueueStatusPage (u : Ui) : StatusView :=
  match queueEntry u with
  | None => NotInQueueView
  | Some entry =>
      if String.eqb (status entry.2) "in-service"
      then InServiceView (serviceName entry.2)
      else PositionView (queuePosition u) (estimatedWait u)
             (barWidth (queuePosition u))
  end.

(** ** QueueManagementPage: staff actions *)

(** [doc(db, ...)]: building a document reference throws when the page has
    no store handle. *)
Definition doc (ctx : AppContext) : Prog unit :=
  match db ctx with
  | Some _ => mret tt
  | None => Throw invalid_argument
  end.

Definition handleAction (ctx : AppContext) (id : DocId) (newStatus : string)
  : Prog unit :=
  doc ctx;;
  await_updateDoc id newStatus.

Definition handleRemoveRequest (id : DocId) : Prog unit :=
  setState (setConfirmingDelete (Some id)).

(** [executeRemove] reads [confirmingDelete] from the state it was rendered
    with. *)
Definition executeRemove (ctx : AppContext) (confirmingDelete : option DocId)
  : Prog unit :=
  match confirmingDelete with
  | Some id =>
      if Js.truthy confirmingDelete then
        doc ctx;;
        await_deleteDoc queueCollection id;;
        setState (setConfirmingDelete None)
      else mret tt
  | None => mret tt
  end.

Inductive Button : Type := StartButton | CompleteButton | RemoveButton.

Global Instance Button_eq_dec : EqDecision Button.
Proof. solve_decision. Defined.

(** The buttons rendered in the row of [item], with their [onClick]. *)
Definition rowButtons (ctx : AppContext) (item : Item)
  : list (Button * Prog unit) :=
  (if String.eqb (status item.2) "waiting"
   then [(StartButton, handleAction ctx item.1 "in-service")] else [])
  ++ (if String.eqb (status item.2) "in-service"
      then [(CompleteButton, handleAction ctx item.1 "completed")] else [])
  ++ [(RemoveButton, handleRemoveRequest item.1)].

Fixpoint onClickOf (b : Button) (l : list (Button * Prog unit))
  : option (Prog unit) :=
  match l with
  | [] => None
  | (b', h) :: l' => if decide (b = b') then Some h else onClickOf b l'
  end.

(** A click on the page: on a button of the [index]-th row, or on one of
    the two buttons of the confirmation dialog. *)
Inductive Click : Type :=
| ClickRow (index : nat) (b : Button)
| ClickConfirm
| ClickCancel.

(** The handler a click runs, [None] when the page does not render the
    button. *)
Definition onClick (ctx : AppContext) (u : Ui) (c : Click)
  : option (Prog unit) :=
  match c with
  | ClickRow index b =>
      match queueList u !! index with
      | Some item => onClickOf b (rowButtons ctx item)
      | None => None
      end
  | ClickConfirm =>
      if Js.truthy (confirmingDelete u)
      then Some (executeRemove ctx (confirmingDelete u)) else None
  | ClickCancel =>
      if Js.truthy (confirmingDelete u)
      then Some (setState (setConfirmingDelete None)) else None
  end.

(** The snapshot callback of the page: [setQueue(snapshot.docs.map(...))]. *)
Definition onStaffSnapshot (snapshot : QuerySnapshot) : Prog unit :=
  setState (setQueue (docs snapshot)).

(** ** ServiceManagementPage *)

(** [executeDelete]; the page's own [confirmingDelete] is passed in and the
    state update that clears it is local to that page. *)
Definition executeDelete (ctx : AppContext) (confirmingDelete : option DocId)
  : Prog unit :=
  match confirmingDelete with
  | Some id =>
      if Js.truthy confirmingDelete then
        doc ctx;;
        await_deleteDoc servicesCollection id
      else mret tt
  | None => mret tt
  end.

(** Modelled from the spec: the staff edit of a Service record ("created/
    edited/deleted by staff", section 3).  The dialog that saves a service is
    cut off from the source file; the edit is taken to write the document
    [id] of the [services] collection. *)
Definition saveService (id : DocId) (d : ServiceData) (s : Store) : Store :=
  mkStore (queue s) (<[id := d]> (services s)) (serverTime s).

(** ** App: which page is rendered *)

Inductive Page : Type :=
| FirebaseSetup
| LoadingSpinner
| KioskHomePage
| KioskJoinQueuePage
| KioskQueueBoardPage
| LoginPage
| DashboardLayout
| ServiceSelectionPage
| QueueStatusPage.

Definition isLineTerminator (c : ascii) : bool :=
  Ascii.eqb c "010"%char || Ascii.eqb c "013"%char.

Fixpoint noLineTerminator (s : string) : bool :=
  match s with
  | EmptyString => true
  | String c s' => negb (isLineTerminator c) && noLineTerminator s'
  end.

(** [kioskRegex.test(route)]: the route is [/kiosk], or [/kiosk/] followed
    by any characters up to the end of the string; the regular expression's
    dot matches no line terminator. *)
Definition kioskRegex_test (route : string) : bool :=
  String.eqb route "/kiosk"
  || (Js.startsWith route "/kiosk/" && noLineTerminator route).

(** [userData?.role] *)
Definition roleOf (ctx : AppContext) : option string := userData ctx ≫= role.

(** [userData?.role === r] *)
Definition roleIs (ctx : AppContext) (r : string) : bool :=
  match roleOf ctx with
  | Some r' => String.eqb r' r
  | None => false
  end.

(** [renderContent]; [firebaseConfig] tells whether a configuration is
    present, and [db ctx] is [None] exactly when [firebaseServices] is. *)
Definition renderContent (firebaseConfig authLoading : bool)
  (ctx : AppContext) (route : string) : Page :=
  if negb firebaseConfig then FirebaseSetup
  else if negb (bool_decide (is_Some (db ctx))) || authLoading
  then LoadingSpinner
  else if kioskRegex_test route then
    if String.eqb route "/kiosk" || String.eqb route "/kiosk/home"
    then KioskHomePage
    else if String.eqb route "/kiosk/join" then KioskJoinQueuePage
    else if String.eqb route "/kiosk/board" then KioskQueueBoardPage
    else KioskHomePage
  else match user ctx with
  | None => LoginPage
  | Some _ =>
      if roleIs ctx "owner" || roleIs ctx "staff"
      then DashboardLayout
      else if String.eqb route "/services" then ServiceSelectionPage
      else if String.eqb route "/queue-status" then QueueStatusPage
      else ServiceSelectionPage
  end.

Inductive DashboardPage : Type :=
| QueueManagementPage
| ServiceManagementPage
| CustomerListPage
| SettingsPage.

(** [renderPage] of [DashboardLayout] *)
Definition renderPage (ctx : AppContext) (route : string) : DashboardPage :=
  if Js.startsWith route "/dashboard/queue" then QueueManagementPage
  else if Js.startsWith route "/dashboard/services" then ServiceManagementPage
  else if Js.startsWith route "/dashboard/customers" then CustomerListPage
  else if Js.startsWith route "/dashboard/settings"
          && roleIs ctx "owner" then SettingsPage
  else QueueManagementPage.

(** The handler run by a click on a control of the staff queue table, when
    the application shows that table to the session at all. *)
Definition staffClick (firebaseConfig authLoading : bool) (ctx : AppContext)
  (u : Ui) (c : Click) : option (Prog unit) :=
  match renderContent firebaseConfig authLoading ctx (route u) with
  | DashboardLayout =>
      match renderPage ctx (route u) with
      | QueueManagementPage => onClick ctx u c
      | _ => None
      end
  | _ => None
  end.

(** What a click on a control of the staff queue table leaves behind: the
    handler is run to completion when the application renders the control
    for the session; otherwise there is nothing to click, no handler is
    called and the world stays as it is. *)
Definition afterStaffClick (firebaseConfig authLoading : bool)
  (ctx : AppContext) (c : Click) (w : World) : World :=
  match staffClick firebaseConfig authLoading ctx (ui w) c with
  | Some h => final (run h w)
  | None => w
  end.

(** A session's clicks on such controls, one after the other. *)
Definition afterStaffClicks (firebaseConfig authLoading : bool)
  (ctx : AppContext) (cs : list Click) (w : World) : World :=
  fold_left (λ w c, afterStaffClick firebaseConfig authLoading ctx c w) cs w.

(** ** Staff actions as sequences of clicks *)

(** One click, run to completion; [None] when the button is not rendered. *)
Definition click (ctx : AppContext) (c : Click) (w : World)
  : option (Result unit) :=
  h ← onClick ctx (ui w) c; Some (run h w).

(** Removing a customer takes two clicks: Remove in the row, then Remove in
    the confirmation dialog. *)
Definition removeAction (ctx : AppContext) (index : nat) (w : World)
  : option (Result unit) :=
  r ← click ctx (ClickRow index RemoveButton) w;
  click ctx ClickConfirm (final r).

(** The staff action behind each button of a row. *)
Definition staffAction (ctx : AppContext) (index : nat) (b : Button)
  (w : World) : option (Result unit) :=
  match b with
  | RemoveButton => removeAction ctx index w
  | _ => click ctx (ClickRow index b) w
  end.

(** ** Histories of the store *)

(** The changes the store undergoes: the writes the application issues (a
    new queue document, a status update, a deletion), the staff edit of a
    service, and the passing of server time. *)
Inductive Change : Type :=
| Added (id : DocId) (w : QueueWrite)
| StatusSet (id : DocId) (newStatus : string)
| Deleted (c : Collection) (id : DocId)
| ServiceSaved (id : DocId) (d : ServiceData)
| TimeIs (t : Z).

Definition applyChange (s : Store) (c : Change) : Store :=
  match c with
  | Added id w => addDoc id w s
  | StatusSet id st => default s (updateDoc id st s)
  | Deleted c id => deleteDoc c id s
  | ServiceSaved id d => saveService id d s
  | TimeIs t => mkStore (queue s) (services s) t
  end.

Definition applyChanges (h : list Change) (s : Store) : Store :=
  fold_left applyChange h s.

(** The change a store operation makes. *)
Definition changeOf (o : StoreOp) : list Change :=
  match o with
  | OpGetDocs _ => []
  | OpAddDoc id w => [Added id w]
  | OpUpdateDoc id st => [StatusSet id st]
  | OpDeleteDoc c id => [Deleted c id]
  end.

(** [adds id c]: the change stores a new queue document under [id]. *)
Definition adds (id : DocId) (c : Change) : Prop :=
  match c with Added id' _ => id' = id | _ => False end.

(** [removes id c]: the change deletes the queue document [id]. *)
Definition removes (id : DocId) (c : Change) : Prop :=
  match c with Deleted queueCollection id' => id' = id | _ => False end.

(** [onService c]: the change is an edit or a deletion of a service. *)
Definition onService (c : Change) : Prop :=
  match c with
  | ServiceSaved _ _ | Deleted servicesCollection _ => True
  | _ => False
  end.

(** ** The specification's notions, for comparison with the code *)

(** An active entry: status [waiting] or [in-service]. *)
Definition isActive (d : QueueDoc) : Prop :=
  status d = "waiting" ∨ status d = "in-service".

Global Instance isActive_dec d : Decision (isActive d).
Proof. unfold isActive. apply _. Defined.

(** The number of active entries of the store. *)
Definition activeCount (s : Store) : nat :=
  base.size (filter (λ kd : DocId * QueueDoc, isActive kd.2) (queue s)).

(** The customer has an active entry in the store. *)
Definition hasActiveEntry (s : Store) (customer : string) : Prop :=
  ∃ id d, queue s !! id = Some d ∧ userId d = customer ∧ isActive d.

(** What the entry at index [j] of the ranking adds to the estimated wait of
    a customer whose entry is at index [rank]: its duration when it is
    strictly ahead and waiting, nothing otherwise. *)
Definition contribution (rank j : nat) (e : Item) : Z :=
  if decide (j < rank ∧ status e.2 = "waiting")
  then serviceDuration e.2 else 0%Z.

Definition sumZ (l : list Z) : Z := foldr Z.add 0%Z l.

Definition specEstimatedWait (ranking : list Item) (rank : nat) : Z :=
  sumZ (imap (contribution rank) ranking).

(** The duration of an entry if it is waiting, zero otherwise. *)
Definition waitingDuration (e : Item) : Z :=
  if String.eqb (status e.2) "waiting" then serviceDuration e.2 else 0%Z.



(** ** Example sessions *)

Module Demo.

Definition noAlert : AlertInfo := mkAlertInfo false EmptyString.

Definition ui0 : Ui := mkUi "/services" noAlert None 0 0 [] None.

Definition ids (n : nat) : DocId :=
  match n with 0 => "e1" | 1 => "e2" | _ => "e3" end%nat.

Definition emptyStore : Store := mkStore ∅ ∅ 100.

Definition world0 : World := mkWorld emptyStore ui0 ids 0.

Definition asha : User := mkUser "A" (Some "Asha") None.
Definition bala : User := mkUser "B" None (Some "5550100").

Definition customer (u : User) : AppContext :=
  mkAppContext (Some u) (Some (mkUserData (Some "customer"))) (Some tt).

Definition staff : AppContext :=
  mkAppContext (Some (mkUser "S" (Some "Sam") None))
    (Some (mkUserData (Some "staff"))) (Some tt).

Definition haircut : Service := ("s1", mkServiceData "Haircut" 30 200 None).
Definition shave : Service := ("s2", mkServiceData "Shave" 15 100 None).

Definition later (w : World) : World :=
  withStore (applyChange (store w) (TimeIs (serverTime (store w) + 1)%Z)) w.

(** Asha has joined for a haircut. *)
Definition world1 : World :=
  final (run (handleJoinQueue (customer asha) haircut) world0).

(** Then Bala has joined for a shave. *)
Definition world2 : World :=
  final (run (handleJoinQueue (customer bala) shave) (later world1)).

(** Then staff has started Asha's service. *)
Definition world3 : World :=
  final (run (handleAction staff "e1" "in-service") world2).

(** Then staff has completed it. *)
Definition world4 : World :=
  final (run (handleAction staff "e1" "completed") world3).

(** A staff session whose table shows the queue of [w]. *)
Definition staffView (w : World) : World :=
  final (run (onStaffSnapshot (getDocs orderedActiveQuery (store w)))
           (mkWorld (store w) ui0 ids 5)).

(** Asha's entry as stored in [world1]. *)
Definition ashaEntry : QueueDoc :=
  mkQueueFields "A" (Some "Asha") None "s1" "Haircut" 30 "waiting" 1 100%Z.


(** Bala's entry as stored in [world2]. *)
Definition balaEntry : QueueDoc :=
  mkQueueFields "B" (Some "5550100") (Some "5550100") "s2" "Shave" 15
    "waiting" 2 101%Z.

(** The snapshot of the active queue in [world2]. *)
Definition queue2 : QuerySnapshot := [("e1", ashaEntry); ("e2", balaEntry)].

(** The snapshot of the active queue once Asha's service is completed:
    only Bala waits. *)
Definition onlyBala : QuerySnapshot := [("e2", balaEntry)].

(** Asha's status page when the subscription to her own entry has
    delivered it and the subscription to the queue has delivered nothing
    yet. *)
Definition firstRender : Ui :=
  ui (final (run (onOwnEntrySnapshot [("e1", ashaEntry)]) world0)).

End Demo.

(** * More of the application *)

(** ** ServiceSelectionPage: closing the alert *)

(** [closeAlert], the [onClose] of the alert. *)
Definition closeAlert : Prog unit :=
  setState (setAlertInfo (mkAlertInfo false EmptyString));;
  setState (navigate "/queue-status").

(** Pressing OK on the alert when it is shown. *)
Definition dismissAlert (w : World) : World :=
  if show (alertInfo (ui w)) then final (run closeAlert w) else w.

(** ** QueueManagementPage: the status chip and the cancel button *)

Inductive Chip : Type :=
| WaitingChip          (* "Waiting" *)
| InServiceChip        (* "In Service" *)
| UnknownChip.         (* "Unknown" *)

Definition getStatusChip (status : string) : Chip :=
  if String.eqb status "waiting" then WaitingChip
  else if String.eqb status "in-service" then InServiceChip
  else UnknownChip.

(** Remove in a row, then Cancel in the confirmation dialog. *)
Definition cancelledRemove (ctx : AppContext) (index : nat) (w : World)
  : option (Result unit) :=
  r ← click ctx (ClickRow index RemoveButton) w;
  click ctx ClickCancel (final r).

(** ** DashboardLayout: the navigation *)

(** [navItems], each with its path and label. *)
Definition navItems (ctx : AppContext) : list (string * string) :=
  [("/dashboard/queue", "Queue");
   ("/dashboard/services", "Services");
   ("/dashboard/customers", "Customers")]
  ++ (if roleIs ctx "owner" then [("/dashboard/settings", "Settings")] else []).

(** The label of the navigation item of each page. *)
Definition pageLabel (p : DashboardPage) : string :=
  match p with
  | QueueManagementPage => "Queue"
  | ServiceManagementPage => "Services"
  | CustomerListPage => "Customers"
  | SettingsPage => "Settings"
  end.

(** ** App: the authentication listener *)

(** The user object of the identity provider, with the one field the queue
    code does not read. *)
Record CurrentUser : Type := mkCurrentUser {
  account : User;
  email : option string
}.

(** A document of the [users] collection as [onAuthStateChanged] writes it:
    [{ uid, displayName, phoneNumber, email, role, createdAt }], here grouped
    as the user's fields, the role and the time stamp. *)
Record UserDoc (T : Type) : Type := mkUserDoc {
  identity : CurrentUser;
  data : UserData;
  created : T
}.
Arguments mkUserDoc {T}.
Arguments identity {T}.
Arguments data {T}.
Arguments created {T}.

(** The state of [App] the listener writes: [user] and [userData] (kept in
    the context), [route] and [authLoading]. *)
Record AppState : Type := mkAppState {
  context : AppContext;
  appRoute : string;
  authLoading : bool
}.

(** [newUser] *)
Definition newUser (cu : CurrentUser) : UserDoc TimestampValue :=
  mkUserDoc cu (mkUserData (Some "customer")) serverTimestamp.

(** [setDoc(userDocRef, newUser)] at server time [now]. *)
Definition storedUser (now : Z) (d : UserDoc TimestampValue) : UserDoc Z :=
  mkUserDoc (identity d) (data d)
    (match created d with serverTimestamp => now | clientTimestamp t => t end).

(** The callback of [onAuthStateChanged]; [pathname] is
    [window.location.pathname].  It has two store operations, each awaited
    on its own: [getDoc] reads the collection [users], and [setDoc], called
    without [merge], later replaces the user's document in the collection
    as it is by then: [others] is what other sessions have done to the
    collection between the two, and [now] the server's time at the write.
    The result is the collection after the callback's last store operation
    (as it was read, when the callback writes nothing), and the state of
    [App]. *)
Definition onAuthStateChanged (currentUser : option CurrentUser)
  (pathname : string)
  (others : gmap string (UserDoc Z) → gmap string (UserDoc Z)) (now : Z)
  (users : gmap string (UserDoc Z))
  (a : AppState) : gmap string (UserDoc Z) * AppState :=
  match currentUser with
  | Some cu =>
      let signedIn := Some (account cu) in
      match users !! uid (account cu) with          (* await getDoc *)
      | Some d =>                                   (* userDocSnap.exists() *)
          let ctx := mkAppContext signedIn (Some (data d)) (db (context a)) in
          (users,
           mkAppState ctx
             (if roleIs ctx "owner" || roleIs ctx "staff"
              then "/dashboard/queue" else "/services")
             false)
      | None =>                                     (* await setDoc *)
          (<[uid (account cu) := storedUser now (newUser cu)]> (others users),
           mkAppState
             (mkAppContext signedIn (Some (data (newUser cu)))
                (db (context a)))
             "/services" false)
      end
  | None =>
      (users,
       mkAppState (mkAppContext None None (db (context a)))
         (if Js.startsWith pathname "/kiosk" then pathname else "/login")
         false)
  end.

(** The page [App] renders in a state, once a configuration is present. *)
Definition pageOf (a : AppState) : Page :=
  renderContent true (authLoading a) (context a) (appRoute a).

(** ** LoginPage *)

Module Login.

(** The error of a rejected sign-in call: [err.code], [err.message]. *)
Record AuthError : Type := mkAuthError {
  code : option string;
  message : string
}.

(** How a sign-in call settles; [A] is what it resolves to. *)
Inductive Settled (A : Type) : Type :=
| Fulfilled (a : A)
| Failed (err : AuthError).
Arguments Fulfilled {A}.
Arguments Failed {A}.

(** The state of the page, and the route of [App] that [navigate] sets.
    A [confirmationResult] is the handle of a pending phone sign-in. *)
Record State : Type := mkState {
  mode : string;
  phoneNumber : string;
  otp : string;
  confirmationResult : option string;
  error : string;
  route : string
}.

Definition initial : State :=
  mkState "select" EmptyString EmptyString None EmptyString "/login".

Definition setMode (m : string) (st : State) : State :=
  mkState m (phoneNumber st) (otp st) (confirmationResult st) (error st)
    (route st).
Definition setPhoneNumber (v : string) (st : State) : State :=
  mkState (mode st) v (otp st) (confirmationResult st) (error st) (route st).
Definition setOtp (v : string) (st : State) : State :=
  mkState (mode st) (phoneNumber st) v (confirmationResult st) (error st)
    (route st).
Definition setConfirmationResult (r : string) (st : State) : State :=
  mkState (mode st) (phoneNumber st) (otp st) (Some r) (error st) (route st).
Definition setError (e : string) (st : State) : State :=
  mkState (mode st) (phoneNumber st) (otp st) (confirmationResult st) e
    (route st).
Definition navigate (path : string) (st : State) : State :=
  mkState (mode st) (phoneNumber st) (otp st) (confirmationResult st)
    (error st) path.

Definition codeIs (err : AuthError) (c : string) : bool :=
  match code err with Some c' => String.eqb c' c | None => false end.

(** [handleGoogleLogin], given how [signInWithPopup] settles. *)
Definition handleGoogleLogin (result : Settled unit) (st : State) : State :=
  match result with
  | Fulfilled _ => navigate "/services" st
  | Failed err =>
      if codeIs err "auth/unauthorized-domain" then
        setError "This domain is not authorized for login. Please add it to your Firebase project settings under Authentication > Settings > Authorized domains." st
      else setError (message err) st
  end.

(** [handlePhoneLogin], given how [signInWithPhoneNumber] settles. *)
Definition handlePhoneLogin (result : Settled string) (st : State) : State :=
  let st := setError EmptyString st in
  match result with
  | Fulfilled r => setMode "otp" (setConfirmationResult r st)
  | Failed err =>
      setError
        (if codeIs err "auth/internal-error"
            || codeIs err "auth/unauthorized-domain"
         then "This domain is not authorized for login. Please add it to your Firebase project's 'Authorized domains' list in the Authentication > Settings page."
         else "Failed to send OTP. Make sure reCAPTCHA can load and the number is correct.")
        st
  end.

(** [handleOtpSubmit], given how [confirmationResult.confirm(otp)] settles
    when it is called. *)
Definition handleOtpSubmit (result : Settled unit) (st : State) : State :=
  let st := setError EmptyString st in
  match confirmationResult st with
  | None => setError "Something went wrong. Please try sending OTP again." st
  | Some _ =>
      match result with
      | Fulfilled _ => navigate "/services" st
      | Failed _ => setError "Invalid OTP. Please try again." st
      end
  end.

(** What can happen on the page: its buttons and inputs, and the three
    handlers with the way their sign-in call settles. *)
Inductive Event : Type :=
| SignInWithMobile                       (* setMode('phone') *)
| ContinueToKiosk                        (* navigate('/kiosk') *)
| Back                                   (* setMode('select') *)
| ChangeNumber
| TypePhoneNumber (v : string)
| TypeOtp (v : string)
| GoogleLogin (result : Settled unit)
| PhoneLogin (result : Settled string)
| OtpSubmit (result : Settled unit).

Definition step (st : State) (ev : Event) : State :=
  match ev with
  | SignInWithMobile => setMode "phone" st
  | ContinueToKiosk => navigate "/kiosk" st
  | Back => setMode "select" st
  | ChangeNumber =>
      setError EmptyString (setOtp EmptyString (setMode "phone" st))
  | TypePhoneNumber v => setPhoneNumber v st
  | TypeOtp v => setOtp v st
  | GoogleLogin result => handleGoogleLogin result st
  | PhoneLogin result => handlePhoneLogin result st
  | OtpSubmit result => handleOtpSubmit result st
  end.

Definition steps (evs : list Event) (st : State) : State :=
  fold_left step evs st.

(** The event is a sign-in that succeeded. *)
Definition signedIn (st : State) (ev : Event) : Prop :=
  match ev with
  | GoogleLogin (Fulfilled _) => True
  | OtpSubmit (Fulfilled _) => is_Some (confirmationResult st)
  | _ => False
  end.

End Login.

(** ** FirebaseSetup and the configuration *)

Module Setup.

(** [s.indexOf(c)] for a one-character [c]: the first index, or -1. *)
Fixpoint indexOf (c : ascii) (s : string) : Z :=
  match s with
  | EmptyString => -1
  | String a s' =>
      if Ascii.eqb a c then 0
      else let r := indexOf c s' in if (r <? 0)%Z then -1 else (r + 1)%Z
  end.

(** [s.lastIndexOf(c)]: the last index, or -1. *)
Fixpoint lastIndexOf (c : ascii) (s : string) : Z :=
  match s with
  | EmptyString => -1
  | String a s' =>
      let r := lastIndexOf c s' in
      if (0 <=? r)%Z then (r + 1)%Z
      else if Ascii.eqb a c then 0 else -1
  end.

(** [s.substring(indexStart, indexEnd)]: both indices are clamped to the
    string, and swapped when the first is the larger. *)
Definition substring (s : string) (indexStart indexEnd : Z) : string :=
  let len := Z.of_nat (String.length s) in
  let a := Z.max 0 (Z.min indexStart len) in
  let b := Z.max 0 (Z.min indexEnd len) in
  String.substring (Z.to_nat (Z.min a b)) (Z.to_nat (Z.max a b - Z.min a b)) s.

(** [jsonString] of [handleSaveConfig]. *)
Definition jsonString (configInput : string) : string :=
  substring configInput (indexOf "{" configInput)
    (lastIndexOf "}" configInput + 1).

(** [c] occurs in [s]. *)
Fixpoint occurs (c : ascii) (s : string) : bool :=
  match s with
  | EmptyString => false
  | String a s' => Ascii.eqb a c || occurs c s'
  end.

(** The part of [s] before the first [c], all of [s] when there is none. *)
Fixpoint before (c : ascii) (s : string) : string :=
  match s with
  | EmptyString => EmptyString
  | String a s' => if Ascii.eqb a c then EmptyString else String a (before c s')
  end.

Section Json.

(** The numbers of JSON, with their truthiness (a number is falsy when it
    is zero), and the parser and printer of the JavaScript engine;
    [JSON_parse] is [None] where [JSON.parse] throws. *)
Variable Num : Type.
Variable numTruthy : Num → bool.

#[warnings="-register-all"] Inductive Json : Type :=
| JNull
| JBool (b : bool)
| JNum (n : Num)
| JStr (s : string)
| JArr (l : list Json)
| JObj (fields : list (string * Json)).

Variable JSON_parse : string → option Json.
Variable JSON_stringify : Json → string.

(** Truthiness of a value. *)
Definition truthy (v : Json) : bool :=
  match v with
  | JNull => false
  | JBool b => b
  | JNum n => numTruthy n
  | JStr EmptyString => false
  | JStr (String _ _) => true
  | JArr _ => true
  | JObj _ => true
  end.

Fixpoint field (key : string) (fields : list (string * Json)) : option Json :=
  match fields with
  | [] => None
  | (k, v) :: rest => if String.eqb k key then Some v else field key rest
  end.

(** What reading a property gives. *)
Inductive Read : Type :=
| Throws                 (* TypeError: the value is null *)
| Undefined
| Value (v : Json).

(** [v.key], for the keys [apiKey] and [projectId], which no prototype
    defines: only an object can have them. *)
Definition prop (v : Json) (key : string) : Read :=
  match v with
  | JNull => Throws
  | JObj fields =>
      match field key fields with Some x => Value x | None => Undefined end
  | _ => Undefined
  end.

(** [!v.key]; [None] when the read throws. *)
Definition missing (v : Json) (key : string) : option bool :=
  match prop v key with
  | Throws => None
  | Undefined => Some true
  | Value x => Some (negb (truthy x))
  end.

(** The browser state the configuration code touches: the item
    [firebaseConfig] of [localStorage], the state [firebaseConfig] of [App],
    and the [error] of [FirebaseSetup]. *)
Record Browser : Type := mkBrowser {
  localStorage : option string;
  firebaseConfig : option Json;
  error : string
}.

Definition invalidMessage : string :=
  "The provided configuration is not valid JSON. Please paste the entire config object from the Firebase console.".

(** The [catch] of [handleSaveConfig], reached after [setError('')]. *)
Definition rejectConfig (b : Browser) : Browser :=
  mkBrowser (localStorage b) (firebaseConfig b) invalidMessage.

(** [handleSaveConfig]; [onConfigReady] is [setFirebaseConfig]. *)
Definition handleSaveConfig (configInput : string) (b : Browser) : Browser :=
  match JSON_parse (jsonString configInput) with
  | None => rejectConfig b
  | Some parsedConfig =>
      match missing parsedConfig "apiKey" with
      | None => rejectConfig b
      | Some true => rejectConfig b
      | Some false =>
          match missing parsedConfig "projectId" with
          | None => rejectConfig b
          | Some true => rejectConfig b
          | Some false =>
              mkBrowser (Some (JSON_stringify parsedConfig))
                (Some parsedConfig) EmptyString
          end
      end
  end.

(** The first effect of [App]: the configuration injected as
    [__firebase_config], if any, else the stored one; when parsing throws,
    the stored item is removed and the configuration is [null]. *)
Definition loadConfig (injected : option string) (b : Browser) : Browser :=
  if Js.truthy injected then
    match injected ≫= JSON_parse with
    | Some config =>
        mkBrowser (localStorage b) (Some config) (error b)
    | None => mkBrowser None None (error b)
    end
  else if Js.truthy (localStorage b) then
    match localStorage b ≫= JSON_parse with
    | Some config =>
        mkBrowser (localStorage b) (Some config) (error b)
    | None => mkBrowser None None (error b)
    end
  else mkBrowser (localStorage b) None (error b).

(** [!firebaseConfig] is false. *)
Definition configured (b : Browser) : bool :=
  match firebaseConfig b with
  | Some config => truthy config
  | None => false
  end.

(** Whether [initializeApp(firebaseConfig)], [getAuth(app)] and
    [getFirestore(app)] all return; [false] when one of them throws. *)
Variable initializes : Json → bool.

(** The second effect of [App], which runs when [firebaseConfig] or
    [firebaseServices] has changed; [firebaseServices] tells whether the
    services are set.  The result is that flag and the browser state after
    the effect: when the initialisation throws, the configuration is set
    back to [null] and the stored item is removed. *)
Definition initFirebase (firebaseServices : bool) (b : Browser)
  : bool * Browser :=
  if configured b && negb firebaseServices then
    match firebaseConfig b with
    | Some config =>
        if initializes config then (true, b)
        else (firebaseServices, mkBrowser None None (error b))
    | None => (firebaseServices, b)
    end
  else (firebaseServices, b).

End Json.

Arguments JNull {Num}.
Arguments JBool {Num}.
Arguments JNum {Num}.
Arguments JStr {Num}.
Arguments JArr {Num}.
Arguments JObj {Num}.
Arguments Throws {Num}.
Arguments Undefined {Num}.
Arguments Value {Num}.
Arguments mkBrowser {Num}.
Arguments localStorage {Num}.
Arguments firebaseConfig {Num}.
Arguments error {Num}.
Arguments field {Num}.
Arguments prop {Num}.
Arguments configured {Num}.
Arguments rejectConfig {Num}.
Arguments loadConfig {Num}.
Arguments truthy {Num}.
Arguments missing {Num}.
Arguments handleSaveConfig {Num}.
Arguments initFirebase {Num}.

End Setup.

(** ** Further notions for the properties below *)

(** No customer has two active entries. *)
Definition oneActivePerUser (s : Store) : Prop :=
  ∀ id1 id2 d1 d2,
    queue s !! id1 = Some d1 → queue s !! id2 = Some d2 →
    isActive d1 → isActive d2 → userId d1 = userId d2 → id1 = id2.

(** The customer has an entry in the snapshot. *)
Definition listed (u : User) (snapshot : list Item) : Prop :=
  ∃ e, e ∈ snapshot ∧ userId e.2 = uid u.

(** [rank] is the index of the customer's first entry in the snapshot. *)
Definition firstAt (u : User) (snapshot : list Item) (rank : nat) : Prop :=
  (∃ e, snapshot !! rank = Some e ∧ userId e.2 = uid u)
  ∧ ∀ j e', j < rank → snapshot !! j = Some e' → userId e'.2 ≠ uid u.

(** [rank] is the index of the customer's last entry in the snapshot. *)
Definition lastAt (u : User) (snapshot : list Item) (rank : nat) : Prop :=
  (∃ e, snapshot !! rank = Some e ∧ userId e.2 = uid u)
  ∧ ∀ j e', rank < j → snapshot !! j = Some e' → userId e'.2 ≠ uid u.

(** No duration in the snapshot is negative. *)
Definition durationsOk (snapshot : list Item) : Prop :=
  ∀ e, e ∈ snapshot → (0 ≤ serviceDuration e.2)%Z.

(** The state of the page after a snapshot of the queue has reached the
    session of [u]. *)
Definition shown (u : User) (snapshot : list Item) (w : World) : Ui :=
  ui (final (run (onQueueSnapshot u snapshot) w)).

(** The same for the snapshot of the active queue of the store [s]. *)
Definition viewOf (u : User) (s : Store) (w : World) : Ui :=
  shown u (getDocs orderedActiveQuery s) w.

Module Demo2.

(** Bala's second browser tab: a session of its own, which generates other
    document ids. *)
Definition otherTab (s : Store) : World :=
  mkWorld s Demo.ui0 (λ _, "t1") 0.

(** The other sessions: just before the third store operation of a program
    (its write, for a join), Bala's second tab completes a join. *)
Definition secondTab (n : nat) (s : Store) : Store :=
  match n with
  | 2 => store (final (run (handleJoinQueue (Demo.customer Demo.bala)
                              Demo.haircut) (otherTab s)))
  | _ => s
  end.

(** Numbers as integers, a parser that knows one text and a printer that
    prints it: enough of a JSON engine for one configuration. *)
Definition config : Setup.Json Z :=
  Setup.JObj [("apiKey", Setup.JStr "k"); ("projectId", Setup.JStr "salon")].

(** The double quote character, and a text in double quotes. *)
Definition dquote : ascii := Ascii false true false false false true false false.

Definition quoted (s : string) : string :=
  String dquote (s +:+ String dquote EmptyString).

Definition configText : string :=
  "{" +:+ quoted "apiKey" +:+ ":" +:+ quoted "k" +:+ ","
  +:+ quoted "projectId" +:+ ":" +:+ quoted "salon" +:+ "}".

(** The configuration as the Firebase console shows it. *)
Definition pasted : string :=
  "const firebaseConfig = " +:+ configText +:+ ";".

Definition parse (s : string) : option (Setup.Json Z) :=
  if String.eqb s configText then Some config else None.

Definition stringify (v : Setup.Json Z) : string := configText.

Definition nonZero (n : Z) : bool := negb (n =? 0)%Z.

Definition emptyBrowser : Setup.Browser Z :=
  Setup.mkBrowser None None EmptyString.

Definition someone : CurrentUser :=
  mkCurrentUser Demo.asha (Some "asha@example.org").

Definition loadingApp : AppState :=
  mkAppState (mkAppContext None None (Some tt)) "/login" true.

Definition chitra : User := mkUser "C" (Some "Chitra") None.

(** Another customer's session: just before the third store operation of a
    program (its write, for a join), Chitra completes a join for a haircut
    from her own browser. *)
Definition chitraJoins (n : nat) (s : Store) : Store :=
  match n with
  | 2 => store (final (run (handleJoinQueue (Demo.customer chitra)
                              Demo.haircut) (otherTab s)))
  | _ => s
  end.

(** Between the read and the write of a sign-in, the owner stores a
    document that makes the user a member of the staff. *)
Definition promoted (cu : CurrentUser) (users : gmap string (UserDoc Z))
  : gmap string (UserDoc Z) :=
  <[uid (account cu) := mkUserDoc cu (mkUserData (Some "staff")) 5%Z]> users.

Definition chitraEntry : QueueDoc :=
  mkQueueFields "C" (Some "Chitra") None "s1" "Haircut" 30 "waiting" 3 102%Z.

(** Three customers waiting. *)
Definition three : list Item :=
  [("e1", Demo.ashaEntry); ("e2", Demo.balaEntry); ("e3", chitraEntry)].

(** Asha twice in the queue, as after a double submission. *)
Definition twice : list Item :=
  [("e1", Demo.ashaEntry); ("e2", Demo.balaEntry);
   ("e3", mkQueueFields "A" (Some "Asha") None "s2" "Shave" 15 "waiting" 3
            102%Z)].

End Demo2.

(** * Properties *)

(** ** Queries *)

Section Queries.

Implicit Types (s : Store) (q : Query) (d : QueueDoc) (id : DocId).

Lemma inb_active (st : string) :
  inb st active = true ↔ st = "waiting" ∨ st = "in-service".
Proof.
  unfold inb, active. simpl.
  rewrite !orb_true_iff, !String.eqb_eq. intuition discriminate.
Qed.

Lemma matches_ownActive (u : User) d :
  matches (ownActiveQuery u) d = true ↔ userId d = uid u ∧ isActive d.
Proof.
  unfold matches, ownActiveQuery, isActive. cbn [forallb satisfies].
  rewrite !andb_true_iff, String.eqb_eq, inb_active. tauto.
Qed.

Lemma matches_allActive d : matches allActiveQuery d = true ↔ isActive d.
Proof.
  unfold matches, allActiveQuery, isActive. cbn [forallb satisfies].
  rewrite !andb_true_iff, inb_active. tauto.
Qed.

Lemma matches_orderedActive d :
  matches orderedActiveQuery d = true ↔ isActive d.
Proof.
  unfold matches, orderedActiveQuery, isActive. cbn [forallb satisfies].
  rewrite !andb_true_iff, inb_active. tauto.
Qed.

Lemma elem_of_matching q s id d :
  (id, d) ∈ matching q s ↔ queue s !! id = Some d ∧ matches q d = true.
Proof.
  unfold matching. rewrite list_elem_of_filter, elem_of_map_to_list.
  simpl. tauto.
Qed.

(** Without a [limit], a snapshot holds exactly the matching documents. *)
Lemma getDocs_Permutation q s :
  limitOf q = None → getDocs q s ≡ₚ matching q s.
Proof.
  intros Hl. unfold getDocs. rewrite Hl. simpl.
  apply merge_sort_Permutation.
Qed.

Lemma elem_of_getDocs q s id d :
  limitOf q = None →
  (id, d) ∈ getDocs q s ↔ queue s !! id = Some d ∧ matches q d = true.
Proof.
  intros Hl. rewrite (getDocs_Permutation q s Hl). apply elem_of_matching.
Qed.

(** The existence check of [handleJoinQueue] finds a document exactly when
    the user has an active entry. *)
Lemma ownActive_nonempty (u : User) s :
  empty (getDocs (ownActiveQuery u) s) = false ↔ hasActiveEntry s (uid u).
Proof.
  unfold hasActiveEntry. split.
  - intros He. destruct (getDocs (ownActiveQuery u) s) as [|[id d] l] eqn:E;
      [discriminate|].
    assert (Hin : (id, d) ∈ getDocs (ownActiveQuery u) s)
      by (rewrite E; left).
    apply elem_of_getDocs in Hin; [|reflexivity].
    destruct Hin as [Hq Hm]. apply matches_ownActive in Hm.
    exists id, d. tauto.
  - intros (id & d & Hq & Hu & Ha).
    assert (Hin : (id, d) ∈ getDocs (ownActiveQuery u) s).
    { apply elem_of_getDocs; [reflexivity|]. split; [done|].
      apply matches_ownActive. done. }
    destruct (getDocs (ownActiveQuery u) s); [inversion Hin | reflexivity].
Qed.

Lemma matching_allActive_Permutation s :
  matching allActiveQuery s
  ≡ₚ map_to_list (filter (λ kd : DocId * QueueDoc, isActive kd.2) (queue s)).
Proof.
  apply NoDup_Permutation.
  - unfold matching. apply NoDup_filter, NoDup_map_to_list.
  - apply NoDup_map_to_list.
  - intros [id d]. rewrite elem_of_matching, elem_of_map_to_list,
      map_lookup_filter_Some, matches_allActive. simpl. tauto.
Qed.

(** The size of the snapshot of all active entries is their number. *)
Lemma size_allActive s :
  size (getDocs allActiveQuery s) = Z.of_nat (activeCount s).
Proof.
  unfold size, activeCount. f_equal.
  rewrite (getDocs_Permutation allActiveQuery s eq_refl).
  rewrite matching_allActive_Permutation. apply length_map_to_list.
Qed.

End Queries.

(** ** Joining the queue *)

Section Join.

Implicit Types (ctx : AppContext) (service : Service) (w : World).

(** The three ways [handleJoinQueue] can go, as equations on its run. *)

Lemma handleJoinQueue_guard ctx service :
  user ctx = None ∨ db ctx = None → handleJoinQueue ctx service = Ret tt.
Proof.
  unfold handleJoinQueue.
  intros [H|H]; rewrite H; [reflexivity|]. by destruct (user ctx).
Qed.

Lemma run_join_existing ctx service u w :
  user ctx = Some u → is_Some (db ctx) →
  hasActiveEntry (store w) (uid u) →
  run (handleJoinQueue ctx service) w =
    mkResult (Resolved tt)
      (mkWorld (store w)
         (applyUi (setAlertInfo
                     (mkAlertInfo true "You are already in the queue."))
            (ui w))
         (autoId w) (issued w))
      [OpGetDocs (ownActiveQuery u)].
Proof.
  intros Hu [[] Hd] Ha. apply ownActive_nonempty in Ha.
  unfold handleJoinQueue. rewrite Hu, Hd.
  cbn [await_getDocs mbind Prog_bind prog_bind run].
  rewrite Ha. reflexivity.
Qed.

Lemma run_join_new ctx service u w :
  user ctx = Some u → is_Some (db ctx) →
  ¬ hasActiveEntry (store w) (uid u) →
  let id := autoId w (issued w) in
  let entry :=
    newEntry u service (size (getDocs allActiveQuery (store w)) + 1) in
  run (handleJoinQueue ctx service) w =
    mkResult (Resolved tt)
      (mkWorld (addDoc id entry (store w))
         (applyUi (navigate "/queue-status") (ui w))
         (autoId w) (S (issued w)))
      [OpGetDocs (ownActiveQuery u); OpGetDocs allActiveQuery;
       OpAddDoc id entry].
Proof.
  intros Hu [[] Hd] Ha. rewrite <- ownActive_nonempty in Ha.
  apply not_false_is_true in Ha.
  unfold handleJoinQueue. rewrite Hu, Hd.
  cbn [await_getDocs mbind Prog_bind prog_bind run].
  rewrite Ha. reflexivity.
Qed.

(** A join adds a document only along the last of the three ways. *)
Lemma join_added ctx service w id wr :
  OpAddDoc id wr ∈ ops (run (handleJoinQueue ctx service) w) →
  ∃ u, user ctx = Some u ∧ is_Some (db ctx)
       ∧ ¬ hasActiveEntry (store w) (uid u)
       ∧ id = autoId w (issued w)
       ∧ wr = newEntry u service
                (size (getDocs allActiveQuery (store w)) + 1).
Proof.
  intros Hin.
  destruct (user ctx) as [u|] eqn:Hu;
    [|rewrite handleJoinQueue_guard in Hin by auto; inversion Hin].
  destruct (db ctx) as [[]|] eqn:Hd;
    [|rewrite handleJoinQueue_guard in Hin by auto; inversion Hin].
  destruct (decide (hasActiveEntry (store w) (uid u))) as [Ha|Ha].
  - rewrite (run_join_existing ctx service u w) in Hin by eauto.
    cbn [ops] in Hin. apply list_elem_of_singleton in Hin. discriminate.
  - rewrite (run_join_new ctx service u w) in Hin by eauto.
    cbn [ops] in Hin. exists u.
    rewrite !elem_of_cons, elem_of_nil in Hin.
    destruct Hin as [Heq|[Heq|[Heq|[]]]]; try discriminate.
    injection Heq as -> ->. eauto 10.
Qed.

(** Under interference the same three ways, each read and the write seeing
    the store as the other sessions have left it by then. *)

Lemma runWith_id {A} (p : Prog A) n w : runWith (λ _ s, s) n p w = run p w.
Proof.
  revert n w.
  induction p as [a|e|q k IH|d k IH|id st k IH|c id k IH|a k IH];
    intros n [s v g i]; cbn [run runWith withStore store ui autoId issued].
  - reflexivity.
  - reflexivity.
  - by rewrite IH.
  - by rewrite IH.
  - destruct (updateDoc id st s); [by rewrite IH | reflexivity].
  - by rewrite IH.
  - by rewrite IH.
Qed.

Lemma runWith_join_existing env n ctx service u w :
  user ctx = Some u → is_Some (db ctx) →
  hasActiveEntry (env n (store w)) (uid u) →
  runWith env n (handleJoinQueue ctx service) w =
    mkResult (Resolved tt)
      (mkWorld (env n (store w))
         (applyUi (setAlertInfo
                     (mkAlertInfo true "You are already in the queue."))
            (ui w))
         (autoId w) (issued w))
      [OpGetDocs (ownActiveQuery u)].
Proof.
  intros Hu [[] Hd] Ha. apply ownActive_nonempty in Ha.
  unfold handleJoinQueue. rewrite Hu, Hd.
  cbn [await_getDocs mbind Prog_bind prog_bind runWith withStore store].
  rewrite Ha. reflexivity.
Qed.

Lemma runWith_join_new env n ctx service u w :
  user ctx = Some u → is_Some (db ctx) →
  let s0 := env n (store w) in
  let s1 := env (S n) s0 in
  let s2 := env (S (S n)) s1 in
  ¬ hasActiveEntry s0 (uid u) →
  let id := autoId w (issued w) in
  let entry := newEntry u service (size (getDocs allActiveQuery s1) + 1) in
  runWith env n (handleJoinQueue ctx service) w =
    mkResult (Resolved tt)
      (mkWorld (addDoc id entry s2)
         (applyUi (navigate "/queue-status") (ui w))
         (autoId w) (S (issued w)))
      [OpGetDocs (ownActiveQuery u); OpGetDocs allActiveQuery;
       OpAddDoc id entry].
Proof.
  intros Hu [[] Hd] s0 s1 s2 Ha. subst s0 s1 s2.
  rewrite <- ownActive_nonempty in Ha. apply not_false_is_true in Ha.
  unfold handleJoinQueue. rewrite Hu, Hd.
  cbn [await_getDocs mbind Prog_bind prog_bind runWith withStore store].
  rewrite Ha. reflexivity.
Qed.

(** Under interference too, a join adds a document only along the last of
    the three ways. *)
Lemma runWith_join_added env n ctx service w id wr :
  OpAddDoc id wr ∈ ops (runWith env n (handleJoinQueue ctx service) w) →
  ∃ u, user ctx = Some u ∧ is_Some (db ctx)
       ∧ ¬ hasActiveEntry (env n (store w)) (uid u)
       ∧ id = autoId w (issued w)
       ∧ wr = newEntry u service
                (size (getDocs allActiveQuery (env (S n) (env n (store w))))
                 + 1).
Proof.
  intros Hin.
  destruct (user ctx) as [u|] eqn:Hu;
    [|rewrite handleJoinQueue_guard in Hin by auto; inversion Hin].
  destruct (db ctx) as [[]|] eqn:Hd;
    [|rewrite handleJoinQueue_guard in Hin by auto; inversion Hin].
  destruct (decide (hasActiveEntry (env n (store w)) (uid u))) as [Ha|Ha].
  - rewrite (runWith_join_existing env n ctx service u w) in Hin by eauto.
    cbn [ops] in Hin. apply list_elem_of_singleton in Hin. discriminate.
  - rewrite (runWith_join_new env n ctx service u w) in Hin by eauto.
    cbn [ops] in Hin. exists u.
    rewrite !elem_of_cons, elem_of_nil in Hin.
    destruct Hin as [Heq|[Heq|[Heq|[]]]]; try discriminate.
    injection Heq as -> ->. eauto 10.
Qed.

End Join.

Section JoinClaims.

Implicit Types (ctx : AppContext) (service : Service) (w : World).

(** C10. Called without an authenticated user or without a store handle,
    [handleJoinQueue] is the program that returns at once: it contains no
    store operation and no state update, so every run of it, with or
    without interference, resolves, performs no read and no write, creates
    no entry, shows no alert and leaves the session as it was. *)
Theorem join_without_user_or_db ctx service :
  user ctx = None ∨ db ctx = None →
  handleJoinQueue ctx service = Ret tt
  ∧ (∀ w, run (handleJoinQueue ctx service) w = mkResult (Resolved tt) w [])
  ∧ (∀ env n w,
       runWith env n (handleJoinQueue ctx service) w
       = mkResult (Resolved tt) w []).
Proof.
  intros H. rewrite (handleJoinQueue_guard ctx service H).
  repeat split.
Qed.

Lemma join_without_user_or_db_witness :
  (user (mkAppContext None None (Some tt)) = None
   ∨ db (mkAppContext None None (Some tt)) = None)
  ∧ run (handleJoinQueue (mkAppContext None None (Some tt)) Demo.haircut)
      Demo.world2
    = mkResult (Resolved tt) Demo.world2 [].
Proof.
  split; [left; reflexivity|].
  apply (join_without_user_or_db
           (mkAppContext None None (Some tt)) Demo.haircut).
  left; reflexivity.
Defined.

(** C1. When the customer already has an entry with status [waiting] or
    [in-service], [handleJoinQueue] reports "You are already in the queue."
    in the alert, and does nothing else: its only store operation is the
    existence check, no document is added, and the store is unchanged. *)
Theorem join_already_queued ctx service u w :
  user ctx = Some u → is_Some (db ctx) →
  hasActiveEntry (store w) (uid u) →
  let r := run (handleJoinQueue ctx service) w in
  outcome r = Resolved tt
  ∧ alertInfo (ui (final r))
    = mkAlertInfo true "You are already in the queue."
  ∧ route (ui (final r)) = route (ui w)
  ∧ store (final r) = store w
  ∧ ops r = [OpGetDocs (ownActiveQuery u)].
Proof.
  intros Hu Hd Ha r. subst r.
  rewrite (run_join_existing ctx service u w Hu Hd Ha).
  repeat split.
Qed.

Lemma join_already_queued_witness :
  hasActiveEntry (store Demo.world2) (uid Demo.bala)
  ∧ store (final (run (handleJoinQueue (Demo.customer Demo.bala)
                         Demo.haircut) Demo.world2))
    = store Demo.world2.
Proof.
  assert (Ha : hasActiveEntry (store Demo.world2) (uid Demo.bala)).
  { exists "e2", Demo.balaEntry.
    split; [vm_compute; reflexivity|].
    split; [reflexivity|]. left; reflexivity. }
  split; [exact Ha|].
  apply (join_already_queued (Demo.customer Demo.bala)
           Demo.haircut Demo.bala Demo.world2);
    [reflexivity | by eexists | exact Ha].
Defined.

(** C4, as the code has it.  Whenever [handleJoinQueue] adds a document,
    whatever other sessions do to the store while it runs, the stored entry
    has status [waiting], its [createdAt] is the [serverTimestamp()]
    sentinel, resolved to the server's time at the insertion and not to a
    time of the client, and its [queueNumber] is one more than the number of
    active entries in the store that the count query has read.  That is the
    number of active entries at the insertion plus one when the queue has
    not changed between the query and the insertion. *)
Theorem join_inserts_waiting_entry env n ctx service w id wr :
  OpAddDoc id wr ∈ ops (runWith env n (handleJoinQueue ctx service) w) →
  let counted := env (S n) (env n (store w)) in
  let reached := env (S (S n)) counted in
  ∃ entry : QueueDoc,
    queue (store (final (runWith env n (handleJoinQueue ctx service) w)))
    = <[id := entry]> (queue reached)
    ∧ status entry = "waiting"
    ∧ queueNumber entry = (Z.of_nat (activeCount counted) + 1)%Z
    ∧ createdAt wr = serverTimestamp
    ∧ createdAt entry = serverTime reached
    ∧ (queue reached = queue counted →
       queueNumber entry = (Z.of_nat (activeCount reached) + 1)%Z).
Proof.
  intros Hin counted reached.
  destruct (runWith_join_added env n ctx service w id wr Hin)
    as (u & Hu & Hd & Ha & -> & ->).
  rewrite (runWith_join_new env n ctx service u w Hu Hd Ha).
  eexists. split; [reflexivity|].
  fold counted. rewrite size_allActive.
  split; [reflexivity|]. split; [reflexivity|]. split; [reflexivity|].
  split; [reflexivity|].
  intros Hq. cbn [stored queueNumber newEntry].
  unfold activeCount. by rewrite Hq.
Qed.

Lemma join_inserts_waiting_entry_witness :
  let w := Demo.later Demo.world1 in
  let r := runWith Demo2.chitraJoins 0
             (handleJoinQueue (Demo.customer Demo.bala) Demo.shave) w in
  OpAddDoc "e2" (newEntry Demo.bala Demo.shave 2) ∈ ops r
  ∧ ∃ entry : QueueDoc,
      queue (store (final r))
      = <["e2" := entry]> (queue (Demo2.chitraJoins 2 (store w)))
      ∧ status entry = "waiting"
      ∧ queueNumber entry = (Z.of_nat (activeCount (store w)) + 1)%Z
      ∧ createdAt entry = serverTime (Demo2.chitraJoins 2 (store w)).
Proof.
  cbv zeta.
  assert (Hin : OpAddDoc "e2" (newEntry Demo.bala Demo.shave 2)
            ∈ ops (runWith Demo2.chitraJoins 0
                     (handleJoinQueue (Demo.customer Demo.bala) Demo.shave)
                     (Demo.later Demo.world1))).
  { vm_compute. do 2 right. left. }
  split; [exact Hin|].
  destruct (join_inserts_waiting_entry Demo2.chitraJoins 0 _ _ _ _ _ Hin)
    as (entry & Hq & Hs & Hn & _ & Hc & _).
  exists entry. split; [exact Hq|]. split; [exact Hs|].
  split; [exact Hn | exact Hc].
Defined.

(** The claim C4 fails on the number when another session writes between
    the count and the insertion.  Asha waits; Bala joins, and just before
    his entry is inserted Chitra's join completes in her own browser.  Two
    entries are then active at the time Bala's entry is inserted, which
    still gets the number 2, the number Chitra's entry has as well. *)
Lemma join_number_counterexample :
  let w := Demo.later Demo.world1 in
  let r := runWith Demo2.chitraJoins 0
             (handleJoinQueue (Demo.customer Demo.bala) Demo.shave) w in
  let atInsertion := Demo2.chitraJoins 2 (store w) in
  outcome r = Resolved tt
  ∧ OpAddDoc "e2" (newEntry Demo.bala Demo.shave 2) ∈ ops r
  ∧ activeCount atInsertion = 2
  ∧ (queueNumber <$> queue (store (final r)) !! "e2") = Some 2%Z
  ∧ (queueNumber <$> queue (store (final r)) !! "t1") = Some 2%Z
  ∧ (queueNumber <$> queue (store (final r)) !! "e2")
    ≠ Some (Z.of_nat (activeCount atInsertion) + 1)%Z.
Proof.
  cbv zeta.
  split; [vm_compute; reflexivity|].
  split; [vm_compute; do 2 right; left|].
  split; [vm_compute; reflexivity|].
  split; [vm_compute; reflexivity|].
  split; [vm_compute; reflexivity|].
  vm_compute. discriminate.
Qed.

End JoinClaims.

(** ** Position and estimated wait *)

Section Estimator.

Variable u : User.

Implicit Types (l : list Item) (sc : Scan) (e : Item).

Lemma forEach_app {St A} (f : St → A → nat → St) (l1 l2 : list A) k s :
  forEach f (l1 ++ l2) k s = forEach f l2 (k + length l1) (forEach f l1 k s).
Proof.
  revert k s. induction l1 as [|x l1 IH]; intros k s; simpl.
  - by rewrite Nat.add_0_r.
  - rewrite IH. f_equal. lia.
Qed.

(** Before the customer's entry is met, the scan adds up the durations of
    the waiting entries. *)
Lemma forEach_visit_before l k sc :
  found sc = false →
  (∀ e, e ∈ l → userId e.2 ≠ uid u) →
  forEach (visit u) l k sc
  = mkScan (position sc) (waitTime sc + sumZ (waitingDuration <$> l)) false.
Proof.
  revert k sc. induction l as [|x l IH]; intros k sc Hf Hno.
  - destruct sc as [p t f]. simpl in *. subst f. f_equal. lia.
  - cbn [forEach]. assert (Hx : userId x.2 ≠ uid u) by (apply Hno; left).
    apply String.eqb_neq in Hx.
    assert (Hv : visit u sc x k
                 = mkScan (position sc) (waitTime sc + waitingDuration x)
                     false).
    { unfold visit, waitingDuration. rewrite Hx, Hf. cbn [negb andb].
      destruct (String.eqb (status x.2) "waiting").
      - reflexivity.
      - destruct sc as [p t f]. simpl in *. subst f. f_equal. lia. }
    rewrite Hv, IH; [|reflexivity|intros e He; apply Hno; by right].
    cbn [position waitTime fmap list_fmap sumZ foldr]. f_equal.
    fold (sumZ (waitingDuration <$> l)). lia.
Qed.

(** Once it is met, the estimate no longer changes. *)
Lemma visit_found sc e k :
  found sc = true →
  found (visit u sc e k) = true ∧ waitTime (visit u sc e k) = waitTime sc.
Proof.
  intros Hf. unfold visit.
  destruct (String.eqb (userId e.2) (uid u)); cbn [found waitTime negb andb].
  - done.
  - rewrite Hf. done.
Qed.

Lemma forEach_visit_after l k sc :
  found sc = true →
  found (forEach (visit u) l k sc) = true
  ∧ waitTime (forEach (visit u) l k sc) = waitTime sc.
Proof.
  revert k sc. induction l as [|x l IH]; intros k sc Hf; [done|].
  cbn [forEach]. destruct (visit_found sc x k Hf) as [Hf' Hw].
  destruct (IH (S k) _ Hf') as [? ?]. split; congruence.
Qed.

(** Entries of other customers leave the position alone. *)
Lemma forEach_visit_position l k sc :
  found sc = true →
  (∀ e, e ∈ l → userId e.2 ≠ uid u) →
  position (forEach (visit u) l k sc) = position sc.
Proof.
  revert k sc. induction l as [|x l IH]; intros k sc Hf Hno; [done|].
  cbn [forEach]. assert (Hx : userId x.2 ≠ uid u) by (apply Hno; left).
  apply String.eqb_neq in Hx.
  assert (Hv : visit u sc x k = sc).
  { unfold visit. rewrite Hx, Hf. reflexivity. }
  rewrite Hv. apply IH; [done|]. intros e He. apply Hno. by right.
Qed.

(** The visit of the customer's own entry. *)
Lemma visit_own sc e k :
  userId e.2 = uid u →
  visit u sc e k = mkScan (Z.of_nat k + 1) (waitTime sc) true.
Proof.
  intros He. apply String.eqb_eq in He. unfold visit. rewrite He.
  reflexivity.
Qed.

(** The specification's sum, over the entries ahead only. *)
Lemma sumZ_contribution rank l k :
  sumZ (imap (λ j, contribution rank (k + j)) l)
  = sumZ (waitingDuration <$> take (rank - k) l).
Proof.
  revert k. induction l as [|x l IH]; intros k.
  - by rewrite take_nil.
  - rewrite imap_cons. cbn [sumZ foldr].
    fold (sumZ (imap ((λ j, contribution rank (k + j)) ∘ S) l)).
    rewrite (imap_ext _ (λ j, contribution rank (S k + j)));
      [|intros i y _; simpl; f_equal; lia].
    rewrite IH. unfold contribution at 1, waitingDuration at 2.
    destruct (decide (k < rank)) as [Hlt|Hge].
    + replace (rank - k) with (S (rank - S k)) by lia.
      cbn [take fmap list_fmap sumZ foldr].
      fold (sumZ (waitingDuration <$> take (rank - S k) l)).
      unfold waitingDuration at 1.
      destruct (String.eqb_spec (status x.2) "waiting") as [Hs|Hs].
      * rewrite decide_True by (split; [lia|done]). reflexivity.
      * rewrite decide_False by tauto. reflexivity.
    + replace (rank - k) with 0 by lia.
      replace (rank - S k) with 0 by lia.
      rewrite decide_False by lia. rewrite !take_0. reflexivity.
Qed.

Lemma specEstimatedWait_take (ranking : list Item) rank :
  specEstimatedWait ranking rank
  = sumZ (waitingDuration <$> take rank ranking).
Proof.
  unfold specEstimatedWait.
  rewrite <- (Nat.sub_0_r rank) at 2.
  rewrite <- sumZ_contribution.
  f_equal.
Qed.

(** The scan of a snapshot whose first entry of the customer is at index
    [rank]. *)
Lemma scan_first_entry (snapshot : QuerySnapshot) rank e :
  snapshot !! rank = Some e → userId e.2 = uid u →
  (∀ j e', j < rank → snapshot !! j = Some e' → userId e'.2 ≠ uid u) →
  found (scan u snapshot) = true
  ∧ waitTime (scan u snapshot) = specEstimatedWait snapshot rank.
Proof.
  intros Hl He Hfirst. rewrite specEstimatedWait_take.
  unfold scan, docs.
  rewrite <- (take_drop_middle snapshot rank e Hl) at 1 2.
  rewrite forEach_app. cbn [forEach].
  rewrite (forEach_visit_before (take rank snapshot)); [|reflexivity|].
  - rewrite (visit_own _ e _ He).
    destruct (forEach_visit_after (drop (S rank) snapshot)
                (S (0 + length (take rank snapshot)))
                (mkScan (Z.of_nat (0 + length (take rank snapshot)) + 1)
                   (0 + sumZ (waitingDuration <$> take rank snapshot)) true)
                eq_refl) as [Hf Hw].
    split; [exact Hf | exact Hw].
  - intros e' He'. apply elem_of_take in He' as (j & Hj & Hlt). eauto.
Qed.

(** The scan of a snapshot without any entry of the customer. *)
Lemma scan_absent (snapshot : QuerySnapshot) :
  (∀ e, e ∈ docs snapshot → userId e.2 ≠ uid u) →
  scan u snapshot
  = mkScan 0 (sumZ (waitingDuration <$> docs snapshot)) false.
Proof.
  intros Hno. unfold scan. rewrite forEach_visit_before by done.
  reflexivity.
Qed.

(** The position when the customer has one entry only. *)
Lemma scan_position (snapshot : QuerySnapshot) rank e :
  snapshot !! rank = Some e → userId e.2 = uid u →
  (∀ j e', snapshot !! j = Some e' → userId e'.2 = uid u → j = rank) →
  position (scan u snapshot) = (Z.of_nat rank + 1)%Z.
Proof.
  intros Hl He Hone. unfold scan, docs.
  rewrite <- (take_drop_middle snapshot rank e Hl) at 1.
  rewrite forEach_app. cbn [forEach].
  rewrite (forEach_visit_before (take rank snapshot)); [|reflexivity|].
  - rewrite (visit_own _ e _ He).
    rewrite forEach_visit_position; [|reflexivity|].
    + cbn [position]. rewrite length_take_le; [lia|].
      apply lookup_lt_Some in Hl. lia.
    + intros e' He' Hu. apply list_elem_of_lookup in He' as [j Hj].
      rewrite lookup_drop in Hj.
      specialize (Hone _ _ Hj Hu). lia.
  - intros e' He' Hu. apply elem_of_take in He' as (j & Hj & Hlt).
    specialize (Hone _ _ Hj Hu). lia.
Qed.

End Estimator.

Section EstimatorClaims.

Implicit Types (u : User) (snapshot : QuerySnapshot) (w : World).

Lemma run_onQueueSnapshot u snapshot w :
  run (onQueueSnapshot u snapshot) w
  = mkResult (Resolved tt)
      (mkWorld (store w)
         (applyUi (setEstimatedWait (waitTime (scan u snapshot)))
            (applyUi (setQueuePosition (position (scan u snapshot))) (ui w)))
         (autoId w) (issued w))
      [].
Proof. reflexivity. Qed.

(** The customer's first entry in a snapshot that has one. *)
Lemma first_entry u snapshot :
  (∃ e, e ∈ docs snapshot ∧ userId e.2 = uid u) →
  ∃ rank e,
    docs snapshot !! rank = Some e
    ∧ userId e.2 = uid u
    ∧ ∀ j e', j < rank → docs snapshot !! j = Some e' → userId e'.2 ≠ uid u.
Proof.
  intros (e & Hin & He).
  destruct (list_find_elem_of (λ x : Item, userId x.2 = uid u)
              (docs snapshot) e Hin He) as [[rank e0] Hfind].
  apply list_find_Some in Hfind as (Hl & He0 & Hfirst).
  exists rank, e0. split; [done|]. split; [done|]. eauto.
Qed.

(** C2. For every snapshot and every customer with an entry in it, the
    estimated wait the callback stores is the sum, over the entries of the
    snapshot, of the duration of those strictly ahead of the customer's
    (first) entry whose status is [waiting]: entries ahead with another
    status, such as [in-service], and entries at or after the customer's
    add nothing.  When the customer has a single entry, the stored position
    is its rank, counted from 1. *)
Theorem estimated_wait_sums_waiting_ahead u snapshot w :
  (∃ e, e ∈ docs snapshot ∧ userId e.2 = uid u) →
  ∃ rank e,
    docs snapshot !! rank = Some e
    ∧ userId e.2 = uid u
    ∧ (∀ j e', j < rank → docs snapshot !! j = Some e' → userId e'.2 ≠ uid u)
    ∧ let r := run (onQueueSnapshot u snapshot) w in
      estimatedWait (ui (final r)) = specEstimatedWait (docs snapshot) rank
      ∧ ((∀ j e', docs snapshot !! j = Some e' → userId e'.2 = uid u
                  → j = rank)
         → queuePosition (ui (final r)) = (Z.of_nat rank + 1)%Z).
Proof.
  intros Hhas. destruct (first_entry u snapshot Hhas) as (rank & e & Hl & He & Hfirst).
  exists rank, e. split; [done|]. split; [done|]. split; [done|].
  intros r. subst r. rewrite run_onQueueSnapshot.
  cbn [final ui applyUi estimatedWait queuePosition].
  split.
  - apply (scan_first_entry u snapshot rank e Hl He Hfirst).
  - intros Hone. apply (scan_position u snapshot rank e Hl He Hone).
Qed.

Lemma estimated_wait_sums_waiting_ahead_witness :
  (∃ e, e ∈ docs Demo.queue2 ∧ userId e.2 = uid Demo.bala)
  ∧ ∃ rank e,
      docs Demo.queue2 !! rank = Some e
      ∧ userId e.2 = uid Demo.bala
      ∧ (∀ j e', j < rank → docs Demo.queue2 !! j = Some e'
                 → userId e'.2 ≠ uid Demo.bala)
      ∧ let r := run (onQueueSnapshot Demo.bala Demo.queue2)
                   Demo.world0 in
        estimatedWait (ui (final r))
        = specEstimatedWait (docs Demo.queue2) rank
        ∧ ((∀ j e', docs Demo.queue2 !! j = Some e'
                    → userId e'.2 = uid Demo.bala → j = rank)
           → queuePosition (ui (final r)) = (Z.of_nat rank + 1)%Z).
Proof.
  assert (Hhas : ∃ e, e ∈ docs Demo.queue2
                      ∧ userId e.2 = uid Demo.bala).
  { exists ("e2", Demo.balaEntry). split; [|reflexivity].
    right. left. }
  split; [exact Hhas|].
  exact (estimated_wait_sums_waiting_ahead Demo.bala Demo.queue2
           Demo.world0 Hhas).
Defined.

(** The snapshot of the customer's own active entry is empty when the
    customer has none. *)
Lemma ownEntry_empty u (s : Store) :
  ¬ hasActiveEntry s (uid u) → getDocs (ownEntryQuery u) s = [].
Proof.
  intros Hno. unfold getDocs.
  assert (Hm : matching (ownEntryQuery u) s = []).
  { apply elem_of_nil_inv. intros [id d] Hin.
    apply elem_of_matching in Hin as [Hq Hm]. apply Hno.
    exists id, d. split; [done|].
    unfold matches, ownEntryQuery in Hm. cbn [forallb satisfies] in Hm.
    rewrite !andb_true_iff, String.eqb_eq, inb_active in Hm.
    unfold isActive. tauto. }
  rewrite Hm. reflexivity.
Qed.

(** A customer without an active entry in the store is in no snapshot of
    the active queue. *)
Lemma absent_in_snapshot u (s : Store) :
  ¬ hasActiveEntry s (uid u) →
  ∀ e, e ∈ docs (getDocs orderedActiveQuery s) → userId e.2 ≠ uid u.
Proof.
  intros Hno [id d] Hin Hu. unfold docs in Hin.
  apply elem_of_getDocs in Hin as [Hq Hm]; [|reflexivity].
  apply matches_orderedActive in Hm. apply Hno. by exists id, d.
Qed.

(** C5, as the code has it.  For every snapshot and every customer without
    an entry in it, the callback stores position 0, which is no rank (ranks
    start at 1); and when the customer has no active entry in the store,
    the snapshot of their own entry is empty, upon which the page shows
    "You are not in the queue." and navigates to the service selection,
    whatever position and estimate are stored. *)
Theorem absent_customer_not_queued u snapshot w :
  (∀ e, e ∈ docs snapshot → userId e.2 ≠ uid u) →
  let w1 := final (run (onQueueSnapshot u snapshot) w) in
  queuePosition (ui w1) = 0%Z
  ∧ ∀ s : Store, ¬ hasActiveEntry s (uid u) →
      let w2 :=
        final (run (onOwnEntrySnapshot (getDocs (ownEntryQuery u) s)) w1) in
      renderQueueStatusPage (ui w2) = NotInQueueView
      ∧ route (ui w2) = "/services".
Proof.
  intros Hno w1. subst w1. rewrite run_onQueueSnapshot.
  rewrite (scan_absent u snapshot Hno). split; [reflexivity|].
  intros s Hs w2. subst w2. rewrite (ownEntry_empty u s Hs).
  split; reflexivity.
Qed.

Lemma absent_customer_not_queued_witness :
  (∀ e, e ∈ docs Demo.onlyBala → userId e.2 ≠ uid Demo.asha)
  ∧ queuePosition
      (ui (final (run (onQueueSnapshot Demo.asha Demo.onlyBala)
                    Demo.world0)))
    = 0%Z.
Proof.
  assert (Hno : ∀ e, e ∈ docs Demo.onlyBala
                     → userId e.2 ≠ uid Demo.asha).
  { intros e He. apply list_elem_of_singleton in He. subst e. discriminate. }
  split; [exact Hno|].
  apply (absent_customer_not_queued Demo.asha Demo.onlyBala
           Demo.world0 Hno).
Defined.

(** The claim C5 fails on the estimate: Asha has no entry in the snapshot
    in which only Bala waits, and the callback stores the estimate 15, the
    duration of Bala's shave, not 0. *)
Lemma absent_customer_wait_counterexample :
  (∀ e, e ∈ docs Demo.onlyBala → userId e.2 ≠ uid Demo.asha)
  ∧ estimatedWait
      (ui (final (run (onQueueSnapshot Demo.asha Demo.onlyBala)
                    Demo.world0)))
    = 15%Z
  ∧ estimatedWait
      (ui (final (run (onQueueSnapshot Demo.asha Demo.onlyBala)
                    Demo.world0)))
    ≠ 0%Z.
Proof.
  split; [|split; [reflexivity | discriminate]].
  intros e He. apply list_elem_of_singleton in He. subst e. discriminate.
Qed.

(** C8, as the code has it.  When the page shows a position that is a rank
    (at least 1), the width of the progress bar is
    [max(0, 100 - (position - 1) * 25)] percent and lies between 0 and
    100. *)
Theorem bar_width_of_rank (v : Ui) (entry : Item) :
  queueEntry v = Some entry →
  status entry.2 ≠ "in-service" →
  (1 ≤ queuePosition v)%Z →
  ∃ width : Z,
    renderQueueStatusPage v
    = PositionView (queuePosition v) (estimatedWait v) width
    ∧ width = Z.max 0 (100 - (queuePosition v - 1) * 25)
    ∧ (0 ≤ width ≤ 100)%Z.
Proof.
  intros Hq Hs Hp. apply String.eqb_neq in Hs.
  exists (barWidth (queuePosition v)).
  unfold renderQueueStatusPage. rewrite Hq, Hs.
  split; [reflexivity|]. unfold barWidth. split; [reflexivity|]. lia.
Qed.

Lemma bar_width_of_rank_witness :
  (1 ≤ 2)%Z
  ∧ ∃ width : Z,
      renderQueueStatusPage
        (mkUi "/queue-status" Demo.noAlert
           (Some ("e2", Demo.balaEntry)) 2 30 [] None)
      = PositionView 2 30 width
      ∧ width = Z.max 0 (100 - (2 - 1) * 25)
      ∧ (0 ≤ width ≤ 100)%Z.
Proof.
  split; [lia|].
  apply (bar_width_of_rank
           (mkUi "/queue-status" Demo.noAlert
              (Some ("e2", Demo.balaEntry)) 2 30 [] None)
           ("e2", Demo.balaEntry));
    [reflexivity | discriminate | simpl; lia].
Defined.

(** The claim C8 fails at position 0, the value of [queuePosition] before
    the first snapshot of the queue arrives: the page then renders a bar of
    125 percent. *)
Lemma bar_width_counterexample :
  renderQueueStatusPage Demo.firstRender = PositionView 0 0 125
  ∧ barWidth 0 = 125%Z
  ∧ ¬ (0 ≤ barWidth 0 ≤ 100)%Z.
Proof.
  split; [reflexivity|]. split; [reflexivity|].
  unfold barWidth. simpl. lia.
Qed.

End EstimatorClaims.

(** ** Histories *)

Section Histories.

Implicit Types (s : Store) (h : list Change) (id : DocId).

Lemma applyChanges_cons c h s :
  applyChanges (c :: h) s = applyChanges h (applyChange s c).
Proof. reflexivity. Qed.

Lemma applyChanges_app h1 h2 s :
  applyChanges (h1 ++ h2) s = applyChanges h2 (applyChanges h1 s).
Proof. unfold applyChanges. apply fold_left_app. Qed.

(** A status update touches the status only. *)
Lemma updateDoc_lookup id st s s' id' :
  updateDoc id st s = Some s' →
  queue s' !! id' =
    if decide (id = id') then setStatus st <$> queue s !! id'
    else queue s !! id'.
Proof.
  unfold updateDoc. destruct (queue s !! id) as [d|] eqn:Hd; [|discriminate].
  intros [= <-]. cbn [queue]. rewrite lookup_insert.
  case_decide; [subst; by rewrite Hd | done].
Qed.

(** One change and the document [id]: unless the change adds it anew, a
    missing document stays missing. *)
Lemma applyChange_absent c s id :
  queue s !! id = None → ¬ adds id c → queue (applyChange s c) !! id = None.
Proof.
  intros Hq Hc. destruct c as [id' wr|id' st|[] id'|id' d|t];
    cbn [applyChange adds] in *.
  - unfold addDoc. cbn [queue]. rewrite lookup_insert_ne; [done|].
    intros ->. by apply Hc.
  - destruct (updateDoc id' st s) as [s'|] eqn:Hu; [|done].
    simpl. rewrite (updateDoc_lookup _ _ _ _ id Hu).
    case_decide; by rewrite Hq.
  - cbn [deleteDoc queue]. rewrite lookup_delete. by case_decide.
  - done.
  - done.
  - done.
Qed.

Lemma applyChanges_absent h s id :
  queue s !! id = None → Forall (λ c, ¬ adds id c) h →
  queue (applyChanges h s) !! id = None.
Proof.
  revert s. induction h as [|c h IH]; intros s Hq Hh; [done|].
  rewrite applyChanges_cons. inversion_clear Hh.
  apply IH; [|done]. by apply applyChange_absent.
Qed.

(** A document that is neither added anew nor deleted keeps its service
    name and duration, whatever else changes. *)
Lemma applyChange_service_fields c s id e :
  queue s !! id = Some e → ¬ adds id c → ¬ removes id c →
  ∃ e', queue (applyChange s c) !! id = Some e'
        ∧ serviceName e' = serviceName e
        ∧ serviceDuration e' = serviceDuration e
        ∧ serviceId e' = serviceId e.
Proof.
  intros Hq Ha Hr. destruct c as [id' wr|id' st|[] id'|id' d|t];
    cbn [applyChange adds removes] in *.
  - exists e. unfold addDoc. cbn [queue].
    rewrite lookup_insert_ne; [done|]. intros ->. by apply Ha.
  - destruct (updateDoc id' st s) as [s'|] eqn:Hu; [|by exists e].
    simpl. rewrite (updateDoc_lookup _ _ _ _ id Hu), Hq.
    case_decide; [by exists (setStatus st e) | by exists e].
  - exists e. cbn [deleteDoc queue].
    rewrite lookup_delete_ne; [done|]. intros ->. by apply Hr.
  - by exists e.
  - by exists e.
  - by exists e.
Qed.

Lemma applyChanges_service_fields h s id e :
  queue s !! id = Some e →
  Forall (λ c, ¬ adds id c ∧ ¬ removes id c) h →
  ∃ e', queue (applyChanges h s) !! id = Some e'
        ∧ serviceName e' = serviceName e
        ∧ serviceDuration e' = serviceDuration e
        ∧ serviceId e' = serviceId e.
Proof.
  revert s e. induction h as [|c h IH]; intros s e Hq Hh.
  - by exists e.
  - rewrite applyChanges_cons. inversion_clear Hh as [|? ? [Ha Hr] Hh'].
    destruct (applyChange_service_fields c s id e Hq Ha Hr)
      as (e1 & Hq1 & Hn1 & Hd1 & Hi1).
    destruct (IH _ e1 Hq1 Hh') as (e2 & Hq2 & Hn2 & Hd2 & Hi2).
    exists e2. repeat split; congruence.
Qed.

(** Edits and deletions of services leave the queue collection alone. *)
Lemma applyChanges_onService h s :
  Forall onService h → queue (applyChanges h s) = queue s.
Proof.
  revert s. induction h as [|c h IH]; intros s Hh; [done|].
  rewrite applyChanges_cons. inversion_clear Hh as [|? ? Hc Hh'].
  rewrite IH by done.
  destruct c as [id' wr|id' st|[] id'|id' d|t]; cbn in Hc; done.
Qed.

(** The store after a run is the store before, changed by the writes the
    run performed. *)
Lemma run_store_changes {A} (p : Prog A) (w : World) :
  store (final (run p w))
  = applyChanges (ops (run p w) ≫= changeOf) (store w).
Proof.
  revert w. induction p as [a|e|q k IH|d k IH|id st k IH|c id k IH|a k IH];
    intros w; cbn [run].
  - reflexivity.
  - reflexivity.
  - cbn [logged final ops]. rewrite IH. reflexivity.
  - cbn [logged final ops]. rewrite IH. reflexivity.
  - destruct (updateDoc id st (store w)) as [s'|] eqn:Hu.
    + cbn [logged final ops]. rewrite IH. cbn [mbind list_bind changeOf].
      cbn [app]. rewrite applyChanges_cons. cbn [applyChange].
      rewrite Hu. reflexivity.
    + cbn [final ops mbind list_bind changeOf app].
      rewrite applyChanges_cons. cbn [applyChange]. rewrite Hu.
      reflexivity.
  - cbn [logged final ops]. rewrite IH. reflexivity.
  - rewrite IH. reflexivity.
Qed.

End Histories.

(** ** Staff actions *)

Section Staff.

Implicit Types (ctx : AppContext) (w : World) (id : DocId) (d : QueueDoc).

Lemma doc_ok ctx : is_Some (db ctx) → doc ctx = Ret tt.
Proof. intros [[] H]. unfold doc. by rewrite H. Qed.

(** [handleAction] writes the new status, whatever the current one. *)
Lemma run_handleAction ctx id st w d :
  is_Some (db ctx) → queue (store w) !! id = Some d →
  run (handleAction ctx id st) w
  = mkResult (Resolved tt)
      (withStore
         (mkStore (<[id := setStatus st d]> (queue (store w)))
            (services (store w)) (serverTime (store w))) w)
      [OpUpdateDoc id st].
Proof.
  intros Hd Hq. unfold handleAction. rewrite (doc_ok ctx Hd).
  cbn [mbind Prog_bind prog_bind await_updateDoc run].
  unfold updateDoc. rewrite Hq. reflexivity.
Qed.

(** On a document that no longer exists it is rejected. *)
Lemma run_handleAction_missing ctx id st w :
  is_Some (db ctx) → queue (store w) !! id = None →
  run (handleAction ctx id st) w
  = mkResult (Rejected not_found) w [OpUpdateDoc id st].
Proof.
  intros Hd Hq. unfold handleAction. rewrite (doc_ok ctx Hd).
  cbn [mbind Prog_bind prog_bind await_updateDoc run].
  unfold updateDoc. rewrite Hq. reflexivity.
Qed.

Lemma truthy_id id : id ≠ EmptyString → Js.truthy (Some id) = true.
Proof. by destruct id. Qed.

Lemma run_executeRemove ctx id w :
  is_Some (db ctx) → id ≠ EmptyString →
  run (executeRemove ctx (Some id)) w
  = mkResult (Resolved tt)
      (mkWorld (deleteDoc queueCollection id (store w))
         (applyUi (setConfirmingDelete None) (ui w)) (autoId w) (issued w))
      [OpDeleteDoc queueCollection id].
Proof.
  intros Hd Hid. unfold executeRemove.
  rewrite (truthy_id id Hid), (doc_ok ctx Hd). reflexivity.
Qed.

Lemma run_executeDelete ctx id w :
  is_Some (db ctx) → id ≠ EmptyString →
  run (executeDelete ctx (Some id)) w
  = mkResult (Resolved tt)
      (withStore (applyChange (store w) (Deleted servicesCollection id)) w)
      [OpDeleteDoc servicesCollection id].
Proof.
  intros Hd Hid. unfold executeDelete.
  rewrite (truthy_id id Hid), (doc_ok ctx Hd). reflexivity.
Qed.

(** The buttons of a row, by the status the row shows. *)
Lemma onClickOf_rowButtons ctx (item : Item) b :
  onClickOf b (rowButtons ctx item)
  = match b with
    | StartButton =>
        if String.eqb (status item.2) "waiting"
        then Some (handleAction ctx item.1 "in-service") else None
    | CompleteButton =>
        if String.eqb (status item.2) "in-service"
        then Some (handleAction ctx item.1 "completed") else None
    | RemoveButton => Some (handleRemoveRequest item.1)
    end.
Proof.
  unfold rowButtons.
  destruct (String.eqb_spec (status item.2) "waiting") as [Hw|Hw];
    destruct (String.eqb_spec (status item.2) "in-service") as [Hs|Hs];
    destruct b; reflexivity.
Qed.

Lemma removeAction_row ctx index w id d :
  is_Some (db ctx) → queueList (ui w) !! index = Some (id, d) →
  id ≠ EmptyString →
  removeAction ctx index w
  = Some (mkResult (Resolved tt)
            (mkWorld (deleteDoc queueCollection id (store w))
               (applyUi (setConfirmingDelete None)
                  (applyUi (setConfirmingDelete (Some id)) (ui w)))
               (autoId w) (issued w))
            [OpDeleteDoc queueCollection id]).
Proof.
  intros Hd Hl Hid. unfold removeAction, click.
  cbn [onClick]. rewrite Hl, onClickOf_rowButtons.
  cbn [mbind option_bind handleRemoveRequest setState run final ui applyUi
         confirmingDelete onClick fst].
  rewrite (truthy_id id Hid). cbn [mbind option_bind].
  rewrite (run_executeRemove ctx id _ Hd Hid). reflexivity.
Qed.

(** Rows of a table that shows the current snapshot. *)
Lemma fresh_row w index id d :
  queueList (ui w) = getDocs orderedActiveQuery (store w) →
  queueList (ui w) !! index = Some (id, d) →
  queue (store w) !! id = Some d ∧ isActive d.
Proof.
  intros Hfresh Hl.
  assert (Hin : (id, d) ∈ getDocs orderedActiveQuery (store w)).
  { rewrite <- Hfresh. apply list_elem_of_lookup. eauto. }
  apply elem_of_getDocs in Hin as [Hq Hm]; [|reflexivity].
  by apply matches_orderedActive in Hm.
Qed.

Lemma fresh_listed w id d :
  queueList (ui w) = getDocs orderedActiveQuery (store w) →
  queue (store w) !! id = Some d → isActive d →
  ∃ index, queueList (ui w) !! index = Some (id, d).
Proof.
  intros Hfresh Hq Ha. apply list_elem_of_lookup. rewrite Hfresh.
  apply elem_of_getDocs; [reflexivity|]. split; [done|].
  by apply matches_orderedActive.
Qed.

(** A snapshot of any query holds documents of the store only. *)
Lemma getDocs_lookup (q : Query) (s : Store) id d :
  (id, d) ∈ getDocs q s → queue s !! id = Some d.
Proof.
  unfold getDocs. intros Hin.
  assert (Hs : (id, d) ∈ merge_sort (doc_le (ordered q)) (matching q s)).
  { destruct (limitOf q) as [n|]; cbn [applyLimit] in Hin; [|done].
    apply elem_of_take in Hin as (i & Hi & _).
    apply list_elem_of_lookup. eauto. }
  rewrite merge_sort_Permutation in Hs.
  by apply elem_of_matching in Hs as [? _].
Qed.


End Staff.

Section StaffClaims.

Implicit Types (ctx : AppContext) (w : World) (id : DocId) (d : QueueDoc).




(** C6, as the code has it.  For every active entry, listed in a staff table
    that shows the current snapshot, the Remove action (the row's button,
    then the confirmation) deletes the entry's document.  From then on, as
    long as no document is created under the same id, the entry is in no
    snapshot of any query: it has left the active set for good. *)
Theorem remove_deletes_entry ctx w id d :
  is_Some (db ctx) →
  queueList (ui w) = getDocs orderedActiveQuery (store w) →
  queue (store w) !! id = Some d → isActive d → id ≠ EmptyString →
  ∃ index r,
    queueList (ui w) !! index = Some (id, d)
    ∧ removeAction ctx index w = Some r
    ∧ outcome r = Resolved tt
    ∧ queue (store (final r)) = delete id (queue (store w))
    ∧ ∀ h, Forall (λ c, ¬ adds id c) h →
        queue (applyChanges h (store (final r))) !! id = None
        ∧ ∀ (q : Query) d',
            (id, d') ∉ getDocs q (applyChanges h (store (final r))).
Proof.
  intros Hd Hfresh Hq Ha Hid.
  destruct (fresh_listed w id d Hfresh Hq Ha) as [index Hl].
  exists index. rewrite (removeAction_row ctx index w id d Hd Hl Hid).
  eexists. split; [done|]. split; [reflexivity|].
  cbn [outcome final store deleteDoc queue].
  split; [reflexivity|]. split; [reflexivity|].
  intros h Hh.
  assert (Hgone : queue (applyChanges h
                           (mkStore (delete id (queue (store w)))
                              (services (store w)) (serverTime (store w))))
                  !! id = None).
  { apply applyChanges_absent; [|done]. cbn [queue].
    apply lookup_delete_eq. }
  split; [exact Hgone|]. intros q d' Hin.
  apply getDocs_lookup in Hin. rewrite Hgone in Hin. discriminate.
Qed.

Lemma remove_deletes_entry_witness :
  queue (store (Demo.staffView Demo.world2)) !! "e1"
  = Some Demo.ashaEntry
  ∧ isActive Demo.ashaEntry
  ∧ ∃ index r,
      queueList (ui (Demo.staffView Demo.world2)) !! index
      = Some ("e1", Demo.ashaEntry)
      ∧ removeAction Demo.staff index (Demo.staffView Demo.world2)
        = Some r
      ∧ outcome r = Resolved tt
      ∧ queue (store (final r))
        = delete "e1" (queue (store (Demo.staffView Demo.world2)))
      ∧ ∀ h, Forall (λ c, ¬ adds "e1" c) h →
          queue (applyChanges h (store (final r))) !! "e1" = None
          ∧ ∀ (q : Query) d',
              ("e1", d') ∉ getDocs q (applyChanges h (store (final r))).
Proof.
  assert (Hq : queue (store (Demo.staffView Demo.world2)) !! "e1"
               = Some Demo.ashaEntry) by (vm_compute; reflexivity).
  assert (Ha : isActive Demo.ashaEntry) by (left; reflexivity).
  split; [exact Hq|]. split; [exact Ha|].
  apply (remove_deletes_entry Demo.staff
           (Demo.staffView Demo.world2) "e1" Demo.ashaEntry);
    [by eexists | reflexivity | exact Hq | exact Ha | discriminate].
Defined.

(** The claim C6 fails on the status: after the Remove action on Asha's row
    there is no entry with status [removed]; her document is gone. *)
Lemma remove_status_counterexample :
  ∃ r, removeAction Demo.staff 0 (Demo.staffView Demo.world2) = Some r
       ∧ queue (store (final r)) !! "e1" = None
       ∧ ¬ (∃ d, queue (store (final r)) !! "e1" = Some d
                 ∧ status d = "removed").
Proof.
  eexists. split; [vm_compute; reflexivity|].
  split; [vm_compute; reflexivity|].
  intros (d & Hd & _). vm_compute in Hd. discriminate.
Qed.

End StaffClaims.

(** ** Who gets the staff controls *)

Section Roles.

Implicit Types (ctx : AppContext) (v : Ui) (w : World).

Lemma roleIs_false ctx (r : string) :
  roleOf ctx ≠ Some r → roleIs ctx r = false.
Proof.
  unfold roleIs. destruct (roleOf ctx) as [r'|]; [|done].
  intros Hne. apply String.eqb_neq. congruence.
Qed.

(** [handleAction] takes no role and reads none: the program it builds
    depends on the session only through the store handle.  Who may call it
    is decided by where it is mounted. *)
Lemma handleAction_reads_no_role ctx ctx' id (newStatus : string) :
  db ctx = db ctx' →
  handleAction ctx id newStatus = handleAction ctx' id newStatus.
Proof. unfold handleAction, doc. by intros ->. Qed.

(** C7.  In the code a transition is called by a click on a control of the
    staff queue table.  For a session whose role is neither [staff] nor
    [owner] the call fails: the application never renders the dashboard for
    it, whatever the route, so no click resolves to a handler and neither
    [handleAction] nor the removal is run; and after any sequence of such
    attempts the world is as before, so that the status of every entry is
    unchanged.  The refusal at the page is what the code has for
    [Unauthorized]. *)
Theorem staff_controls_need_role (firebaseConfig authLoading : bool) ctx w :
  roleOf ctx ≠ Some "staff" → roleOf ctx ≠ Some "owner" →
  renderContent firebaseConfig authLoading ctx (route (ui w))
  ≠ DashboardLayout
  ∧ (∀ c : Click, staffClick firebaseConfig authLoading ctx (ui w) c = None)
  ∧ ∀ cs : list Click,
      let w' := afterStaffClicks firebaseConfig authLoading ctx cs w in
      w' = w
      ∧ ∀ id, status <$> queue (store w') !! id
              = status <$> queue (store w) !! id.
Proof.
  intros Hs Ho.
  assert (Hr : ∀ v : Ui,
             renderContent firebaseConfig authLoading ctx (route v)
             ≠ DashboardLayout).
  { intros v. unfold renderContent.
    rewrite (roleIs_false ctx "staff" Hs), (roleIs_false ctx "owner" Ho).
    cbn [orb].
    repeat match goal with
           | |- context [if ?b then _ else _] => destruct b
           | |- context [match ?o with Some _ => _ | None => _ end] =>
               destruct o
           end; discriminate. }
  assert (Hc : ∀ (v : Ui) (c : Click),
             staffClick firebaseConfig authLoading ctx v c = None).
  { intros v c. unfold staffClick. specialize (Hr v).
    destruct (renderContent firebaseConfig authLoading ctx (route v));
      try reflexivity.
    contradiction. }
  split; [apply Hr|]. split; [intros c; apply Hc|].
  intros cs. cbv zeta.
  assert (Hw : afterStaffClicks firebaseConfig authLoading ctx cs w = w).
  { unfold afterStaffClicks. induction cs as [|c cs IH]; [reflexivity|].
    cbn [fold_left]. unfold afterStaffClick at 2. by rewrite Hc. }
  rewrite Hw. by split.
Qed.

Lemma staff_controls_need_role_witness :
  roleOf (Demo.customer Demo.bala) ≠ Some "staff"
  ∧ roleOf (Demo.customer Demo.bala) ≠ Some "owner"
  ∧ staffClick true false (Demo.customer Demo.bala)
      (ui (Demo.staffView Demo.world2)) (ClickRow 0 StartButton)
    = None
  ∧ afterStaffClicks true false (Demo.customer Demo.bala)
      [ClickRow 0 StartButton; ClickRow 0 RemoveButton; ClickConfirm]
      (Demo.staffView Demo.world2)
    = Demo.staffView Demo.world2.
Proof.
  assert (Hs : roleOf (Demo.customer Demo.bala) ≠ Some "staff")
    by discriminate.
  assert (Ho : roleOf (Demo.customer Demo.bala) ≠ Some "owner")
    by discriminate.
  split; [exact Hs|]. split; [exact Ho|].
  destruct (staff_controls_need_role true false (Demo.customer Demo.bala)
              (Demo.staffView Demo.world2) Hs Ho) as (_ & Hc & Hw).
  split; [apply Hc|].
  exact (proj1 (Hw [ClickRow 0 StartButton; ClickRow 0 RemoveButton;
                    ClickConfirm])).
Defined.

End Roles.

(** ** Service data in queue entries *)

Section ServiceCopy.

Implicit Types (ctx : AppContext) (service : Service) (w : World).

Lemma onService_keeps (id : DocId) (c : Change) :
  onService c → ¬ adds id c ∧ ¬ removes id c.
Proof. destruct c as [| |[]| |]; cbn; tauto. Qed.

(** C9.  The entry [handleJoinQueue] adds carries the name and the duration
    of the service it was given.  Whatever happens to the store afterwards,
    edits and deletions of services among it, the entry keeps both as long
    as it is not itself deleted (or its id reused for a new document); and a
    history of service edits and deletions alone leaves the whole queue
    collection as it was. *)
Theorem entry_keeps_service_copy ctx service w id wr :
  OpAddDoc id wr ∈ ops (run (handleJoinQueue ctx service) w) →
  let s1 := store (final (run (handleJoinQueue ctx service) w)) in
  (∃ entry, queue s1 !! id = Some entry
            ∧ serviceName entry = name service.2
            ∧ serviceDuration entry = duration service.2)
  ∧ (∀ h, Forall (λ c, ¬ adds id c ∧ ¬ removes id c) h →
       ∃ entry, queue (applyChanges h s1) !! id = Some entry
                ∧ serviceName entry = name service.2
                ∧ serviceDuration entry = duration service.2)
  ∧ (∀ h, Forall onService h → queue (applyChanges h s1) = queue s1).
Proof.
  intros Hin s1.
  destruct (join_added ctx service w id wr Hin)
    as (u & Hu & Hd & Ha & -> & ->).
  assert (Hq : ∃ entry, queue s1 !! autoId w (issued w) = Some entry
                        ∧ serviceName entry = name service.2
                        ∧ serviceDuration entry = duration service.2).
  { subst s1. rewrite (run_join_new ctx service u w Hu Hd Ha).
    cbn [final store addDoc queue]. rewrite lookup_insert_eq.
    eexists. split; [reflexivity|]. split; reflexivity. }
  split; [exact Hq|]. split.
  - intros h Hh. destruct Hq as (entry & Hq & Hn & Hdur).
    destruct (applyChanges_service_fields h s1 _ entry Hq Hh)
      as (e' & Hq' & Hn' & Hd' & _).
    exists e'. repeat split; congruence.
  - intros h Hh. by apply applyChanges_onService.
Qed.

Lemma entry_keeps_service_copy_witness :
  OpAddDoc "e2" (newEntry Demo.bala Demo.shave 2)
    ∈ ops (run (handleJoinQueue (Demo.customer Demo.bala)
                  Demo.shave) (Demo.later Demo.world1))
  ∧ ∃ entry,
      queue (applyChanges
               [ServiceSaved "s2" (mkServiceData "Beard trim" 20 150 None);
                Deleted servicesCollection "s2"]
               (store (final (run (handleJoinQueue
                                     (Demo.customer Demo.bala)
                                     Demo.shave)
                                (Demo.later Demo.world1))))) !! "e2"
      = Some entry
      ∧ serviceName entry = "Shave"
      ∧ serviceDuration entry = 15%Z.
Proof.
  assert (Hin : OpAddDoc "e2" (newEntry Demo.bala Demo.shave 2)
            ∈ ops (run (handleJoinQueue (Demo.customer Demo.bala)
                          Demo.shave) (Demo.later Demo.world1))).
  { vm_compute. do 2 right. left. }
  split; [exact Hin|].
  destruct (entry_keeps_service_copy _ _ _ _ _ Hin) as (_ & Hkeep & _).
  apply Hkeep. repeat constructor; cbn; tauto.
Defined.

End ServiceCopy.

(** ** The scenario of section 8, run on the model *)

Section Scenario.

(** Asha joins for a haircut: rank 1, no wait. *)
Example scenario_asha_joins :
  queue (store Demo.world1) !! "e1" = Some Demo.ashaEntry
  ∧ scan Demo.asha (getDocs orderedActiveQuery (store Demo.world1))
    = mkScan 1 0 true.
Proof. split; vm_compute; reflexivity. Qed.

(** Bala joins for a shave: rank 2, 30 minutes. *)
Example scenario_bala_joins :
  getDocs orderedActiveQuery (store Demo.world2) = Demo.queue2
  ∧ scan Demo.bala Demo.queue2 = mkScan 2 30 true.
Proof. split; vm_compute; reflexivity. Qed.

(** Asha's service starts: Bala keeps rank 2, the estimate drops to 0. *)
Example scenario_asha_in_service :
  scan Demo.bala (getDocs orderedActiveQuery (store Demo.world3))
  = mkScan 2 0 true.
Proof. vm_compute; reflexivity. Qed.

(** Asha's service is completed: Bala is first. *)
Example scenario_asha_completed :
  getDocs orderedActiveQuery (store Demo.world4) = Demo.onlyBala
  ∧ scan Demo.bala Demo.onlyBala = mkScan 1 0 true.
Proof. split; vm_compute; reflexivity. Qed.

(** Bala submits a second time: one read, no write, the alert. *)
Example scenario_double_submit :
  ops (run (handleJoinQueue (Demo.customer Demo.bala) Demo.shave)
         Demo.world2)
  = [OpGetDocs (ownActiveQuery Demo.bala)].
Proof. vm_compute; reflexivity. Qed.

End Scenario.

(** * Further properties *)

(** ** The estimator on arbitrary snapshots *)

Section EstimatorMore.

Variable u : User.

Implicit Types (l : list Item) (sc : Scan) (e : Item) (w : World).

Lemma shown_position l w :
  queuePosition (shown u l w) = position (scan u l).
Proof. reflexivity. Qed.

Lemma shown_wait l w : estimatedWait (shown u l w) = waitTime (scan u l).
Proof. reflexivity. Qed.

Lemma position_visit sc e k :
  position (visit u sc e k)
  = if String.eqb (userId e.2) (uid u) then (Z.of_nat k + 1)%Z
    else position sc.
Proof.
  unfold visit. destruct (String.eqb (userId e.2) (uid u)); cbn [found negb andb].
  - reflexivity.
  - destruct (negb (found sc) && String.eqb (status e.2) "waiting");
      reflexivity.
Qed.

Lemma forEach_position_no_own l k sc :
  (∀ e, e ∈ l → userId e.2 ≠ uid u) →
  position (forEach (visit u) l k sc) = position sc.
Proof.
  revert k sc. induction l as [|x l IH]; intros k sc Hno; [done|].
  cbn [forEach]. rewrite IH by (intros e He; apply Hno; by right).
  rewrite position_visit.
  assert (Hx : userId x.2 ≠ uid u) by (apply Hno; left).
  apply String.eqb_neq in Hx. by rewrite Hx.
Qed.

Lemma forEach_position_range l k sc :
  (position sc ≤ Z.of_nat k)%Z →
  (position sc ≤ position (forEach (visit u) l k sc)
   ≤ Z.of_nat (k + length l))%Z.
Proof.
  revert k sc. induction l as [|x l IH]; intros k sc Hk.
  - cbn [forEach length]. lia.
  - cbn [forEach length].
    assert (Hv : (position sc ≤ position (visit u sc x k) ≤ Z.of_nat (S k))%Z).
    { rewrite position_visit.
      destruct (String.eqb (userId x.2) (uid u)); lia. }
    specialize (IH (S k) (visit u sc x k) ltac:(lia)). lia.
Qed.

Lemma forEach_position_listed l k sc :
  (position sc ≤ Z.of_nat k)%Z →
  (∃ e, e ∈ l ∧ userId e.2 = uid u) →
  (Z.of_nat k + 1 ≤ position (forEach (visit u) l k sc))%Z.
Proof.
  revert k sc. induction l as [|x l IH]; intros k sc Hk (e & Hin & He).
  - inversion Hin.
  - cbn [forEach].
    destruct (String.eqb_spec (userId x.2) (uid u)) as [Hx|Hx].
    + pose proof (forEach_position_range l (S k) (visit u sc x k)) as Hr.
      rewrite position_visit in Hr. apply String.eqb_eq in Hx.
      rewrite Hx in Hr. specialize (Hr ltac:(lia)). lia.
    + apply elem_of_cons in Hin as [->|Hin]; [done|].
      assert (Hv : (position (visit u sc x k) ≤ Z.of_nat (S k))%Z).
      { rewrite position_visit. apply String.eqb_neq in Hx. rewrite Hx. lia. }
      specialize (IH (S k) _ Hv (ex_intro _ e (conj Hin He))). lia.
Qed.

(** The position does not depend on the statuses. *)
Lemma forEach_position_same_users l l' k sc sc' :
  Forall2 (λ a b : Item, userId a.2 = userId b.2) l l' →
  position sc = position sc' →
  position (forEach (visit u) l k sc) = position (forEach (visit u) l' k sc').
Proof.
  intros HF. revert k sc sc'.
  induction HF as [|a b l l' Hab HF IH]; intros k sc sc' Hp; [done|].
  cbn [forEach]. apply IH. rewrite !position_visit, Hab, Hp. reflexivity.
Qed.

(** Starting one index later moves the position by one, when there is any. *)
Lemma forEach_position_shift l k sc sc' :
  (∃ e, e ∈ l ∧ userId e.2 = uid u) →
  position (forEach (visit u) l (S k) sc)
  = (position (forEach (visit u) l k sc') + 1)%Z.
Proof.
  revert k sc sc'. induction l as [|x l IH]; intros k sc sc' (e & Hin & He).
  - inversion Hin.
  - cbn [forEach].
    destruct (decide (Exists (λ e' : Item, userId e'.2 = uid u) l))
      as [Hl|Hl]; rewrite Exists_exists in Hl.
    + by apply IH.
    + assert (Hno : ∀ e', e' ∈ l → userId e'.2 ≠ uid u) by naive_solver.
      rewrite !forEach_position_no_own by done.
      apply elem_of_cons in Hin as [->|Hin]; [|naive_solver].
      rewrite !position_visit. apply String.eqb_eq in He. rewrite He. lia.
Qed.

Lemma sumZ_app (l1 l2 : list Z) : sumZ (l1 ++ l2) = (sumZ l1 + sumZ l2)%Z.
Proof.
  induction l1 as [|x l1 IH]; [reflexivity|].
  cbn [app sumZ foldr]. fold (sumZ (l1 ++ l2)) (sumZ l1). lia.
Qed.

Lemma sumZ_cons (x : Z) (l : list Z) : sumZ (x :: l) = (x + sumZ l)%Z.
Proof. reflexivity. Qed.

Lemma waitingDuration_nonneg e :
  (0 ≤ serviceDuration e.2)%Z → (0 ≤ waitingDuration e)%Z.
Proof. unfold waitingDuration. destruct (String.eqb _ _); lia. Qed.

Lemma sumZ_waiting_nonneg l :
  durationsOk l → (0 ≤ sumZ (waitingDuration <$> l))%Z.
Proof.
  induction l as [|x l IH]; intros Hok; [reflexivity|].
  rewrite fmap_cons, sumZ_cons.
  assert (0 ≤ waitingDuration x)%Z
    by (apply waitingDuration_nonneg, Hok; left).
  assert (0 ≤ sumZ (waitingDuration <$> l))%Z
    by (apply IH; intros e He; apply Hok; by right).
  lia.
Qed.

Lemma durationsOk_take l n : durationsOk l → durationsOk (take n l).
Proof.
  intros Hok e He. apply elem_of_take in He as (i & Hi & _).
  apply Hok, list_elem_of_lookup. eauto.
Qed.

Lemma durationsOk_drop l n : durationsOk l → durationsOk (drop n l).
Proof.
  intros Hok e He. apply list_elem_of_lookup in He as [i Hi].
  rewrite lookup_drop in Hi. apply Hok, list_elem_of_lookup. eauto.
Qed.

(** Longer prefixes have larger sums. *)
Lemma sumZ_waiting_take_le l n m :
  durationsOk l → n ≤ m →
  (sumZ (waitingDuration <$> take n l)
   ≤ sumZ (waitingDuration <$> take m l))%Z.
Proof.
  intros Hok Hnm.
  replace m with (n + (m - n)) by lia.
  rewrite <- take_take_drop, fmap_app, sumZ_app.
  pose proof (sumZ_waiting_nonneg (take (m - n) (drop n l))
                (durationsOk_take _ _ (durationsOk_drop _ _ Hok))). lia.
Qed.

(** The estimate of a scan that has not yet met the customer: it grows by
    the waiting durations up to the customer's first entry. *)
Lemma forEach_wait_first l k sc rank :
  found sc = false → firstAt u l rank →
  waitTime (forEach (visit u) l k sc)
  = (waitTime sc + sumZ (waitingDuration <$> take rank l))%Z.
Proof.
  intros Hf [(e & Hl & He) Hfirst].
  rewrite <- (take_drop_middle l rank e Hl) at 1.
  rewrite forEach_app. cbn [forEach].
  rewrite (forEach_visit_before u (take rank l)); [|done|].
  - rewrite (visit_own u _ e _ He).
    destruct (forEach_visit_after u (drop (S rank) l)
                (S (k + length (take rank l)))
                (mkScan (Z.of_nat (k + length (take rank l)) + 1)
                   (waitTime sc + sumZ (waitingDuration <$> take rank l)) true)
                eq_refl) as [_ Hw].
    exact Hw.
  - intros e' He'. apply elem_of_take in He' as (j & Hj & Hlt). eauto.
Qed.

End EstimatorMore.

Section EstimatorExtras.

Implicit Types (u : User) (l snapshot : list Item) (w : World).

Lemma scan_wait_first u l rank :
  firstAt u l rank →
  waitTime (scan u l) = sumZ (waitingDuration <$> take rank l).
Proof.
  intros Hf. unfold scan, docs.
  rewrite (forEach_wait_first u l 0 (mkScan 0 0 false) rank eq_refl Hf).
  reflexivity.
Qed.

Lemma scan_position_last u l rank :
  lastAt u l rank → position (scan u l) = (Z.of_nat rank + 1)%Z.
Proof.
  intros [(e & Hl & He) Hlast]. unfold scan, docs.
  rewrite <- (take_drop_middle l rank e Hl) at 1.
  rewrite forEach_app. cbn [forEach].
  rewrite forEach_position_no_own.
  - rewrite position_visit. apply String.eqb_eq in He. rewrite He.
    rewrite length_take_le; [lia|]. apply lookup_lt_Some in Hl. lia.
  - intros e' He'. apply list_elem_of_lookup in He' as [j Hj].
    rewrite lookup_drop in Hj. apply (Hlast (S rank + j) e'); [lia|done].
Qed.

(** With several entries of one customer in the snapshot, the position the
    page stores is the rank of the last of them, while the estimate is the
    sum of the waiting durations ahead of the first. *)
Theorem position_of_last_entry u snapshot w first last :
  firstAt u snapshot first → lastAt u snapshot last →
  queuePosition (shown u snapshot w) = (Z.of_nat last + 1)%Z
  ∧ estimatedWait (shown u snapshot w) = specEstimatedWait snapshot first.
Proof.
  intros Hf Hl. rewrite shown_position, shown_wait. split.
  - by apply scan_position_last.
  - rewrite specEstimatedWait_take. by apply scan_wait_first.
Qed.

Lemma position_of_last_entry_witness :
  firstAt Demo.asha Demo2.twice 0 ∧ lastAt Demo.asha Demo2.twice 2
  ∧ queuePosition (shown Demo.asha Demo2.twice Demo.world0) = 3%Z
  ∧ estimatedWait (shown Demo.asha Demo2.twice Demo.world0) = 0%Z.
Proof.
  assert (Hf : firstAt Demo.asha Demo2.twice 0).
  { split; [eexists; split; reflexivity|]. intros j e' Hj. lia. }
  assert (Hl : lastAt Demo.asha Demo2.twice 2).
  { split; [eexists; split; reflexivity|]. intros j e' Hj Hlk.
    destruct j as [|[|[|j]]]; try lia. discriminate. }
  split; [exact Hf|]. split; [exact Hl|].
  exact (position_of_last_entry Demo.asha Demo2.twice Demo.world0 0 2 Hf Hl).
Defined.

Lemma forEach_wait_range u l k sc :
  durationsOk l →
  (waitTime sc ≤ waitTime (forEach (visit u) l k sc)
   ≤ waitTime sc + sumZ (waitingDuration <$> l))%Z.
Proof.
  revert k sc. induction l as [|x l IH]; intros k sc Hok.
  - cbn. lia.
  - cbn [forEach]. rewrite fmap_cons, sumZ_cons.
    assert (Hx : (0 ≤ serviceDuration x.2)%Z) by (apply Hok; left).
    assert (Hv : (waitTime sc ≤ waitTime (visit u sc x k)
                  ≤ waitTime sc + waitingDuration x)%Z).
    { unfold visit, waitingDuration.
      destruct (String.eqb (userId x.2) (uid u)); cbn [found negb andb waitTime].
      - destruct (String.eqb (status x.2) "waiting"); lia.
      - destruct (found sc); cbn [negb andb];
          destruct (String.eqb (status x.2) "waiting"); cbn [waitTime]; lia. }
    specialize (IH (S k) (visit u sc x k)
                  ltac:(intros e He; apply Hok; by right)).
    lia.
Qed.

(** Whoever the customer is, queued or not, the estimate lies between 0 and
    the sum of the durations of all waiting entries of the snapshot, when no
    duration is negative. *)
Theorem estimate_bounds u snapshot w :
  durationsOk snapshot →
  (0 ≤ estimatedWait (shown u snapshot w)
   ≤ sumZ (waitingDuration <$> snapshot))%Z.
Proof.
  intros Hok. rewrite shown_wait. unfold scan, docs.
  pose proof (forEach_wait_range u snapshot 0 (mkScan 0 0 false) Hok) as H.
  cbn [waitTime] in H. lia.
Qed.

Lemma durationsOk_three : durationsOk Demo2.three.
Proof.
  intros e He. unfold Demo2.three in He.
  rewrite !elem_of_cons, elem_of_nil in He.
  destruct He as [->|[->|[->|[]]]]; cbn; lia.
Qed.

Lemma estimate_bounds_witness :
  durationsOk Demo2.three
  ∧ (0 ≤ estimatedWait (shown Demo.bala Demo2.three Demo.world0)
     ≤ sumZ (waitingDuration <$> Demo2.three))%Z.
Proof.
  split; [exact durationsOk_three|].
  exact (estimate_bounds Demo.bala Demo2.three Demo.world0 durationsOk_three).
Defined.

(** A customer further back in the snapshot never has the smaller estimate,
    when no duration is negative. *)
Theorem estimate_monotone u1 u2 snapshot w rank1 rank2 :
  durationsOk snapshot →
  firstAt u1 snapshot rank1 → firstAt u2 snapshot rank2 →
  rank1 ≤ rank2 →
  (estimatedWait (shown u1 snapshot w)
   ≤ estimatedWait (shown u2 snapshot w))%Z.
Proof.
  intros Hok H1 H2 Hle. rewrite !shown_wait.
  rewrite (scan_wait_first u1 snapshot rank1 H1).
  rewrite (scan_wait_first u2 snapshot rank2 H2).
  by apply sumZ_waiting_take_le.
Qed.

Lemma estimate_monotone_witness :
  durationsOk Demo2.three
  ∧ firstAt Demo.bala Demo2.three 1 ∧ firstAt Demo2.chitra Demo2.three 2
  ∧ (estimatedWait (shown Demo.bala Demo2.three Demo.world0)
     ≤ estimatedWait (shown Demo2.chitra Demo2.three Demo.world0))%Z.
Proof.
  assert (H1 : firstAt Demo.bala Demo2.three 1).
  { split; [eexists; split; reflexivity|]. intros j e' Hj Hl.
    destruct j as [|j]; [|lia]. injection Hl as <-. discriminate. }
  assert (H2 : firstAt Demo2.chitra Demo2.three 2).
  { split; [eexists; split; reflexivity|]. intros j e' Hj Hl.
    destruct j as [|[|j]]; [| |lia]; injection Hl as <-; discriminate. }
  split; [exact durationsOk_three|]. split; [exact H1|]. split; [exact H2|].
  apply (estimate_monotone Demo.bala Demo2.chitra Demo2.three Demo.world0 1 2
           durationsOk_three H1 H2). lia.
Defined.

End EstimatorExtras.

Section EstimatorAndStore.

Implicit Types (u : User) (l snapshot : list Item) (w : World) (s : Store).

Lemma matching_active_Permutation (q : Query) s :
  (∀ d, matches q d = true ↔ isActive d) →
  matching q s
  ≡ₚ map_to_list (filter (λ kd : DocId * QueueDoc, isActive kd.2) (queue s)).
Proof.
  intros Hq. apply NoDup_Permutation.
  - unfold matching. apply NoDup_filter, NoDup_map_to_list.
  - apply NoDup_map_to_list.
  - intros [id d]. rewrite elem_of_matching, elem_of_map_to_list,
      map_lookup_filter_Some, Hq. simpl. tauto.
Qed.

(** The snapshot of the ordered query has one entry per active entry. *)
Lemma length_orderedActive s :
  length (getDocs orderedActiveQuery s) = activeCount s.
Proof.
  rewrite (getDocs_Permutation orderedActiveQuery s eq_refl).
  rewrite (matching_active_Permutation _ s matches_orderedActive).
  apply length_map_to_list.
Qed.

(** A customer with an active entry in the store is in the snapshot. *)
Lemma listed_in_snapshot u s :
  hasActiveEntry s (uid u) → listed u (getDocs orderedActiveQuery s).
Proof.
  intros (id & d & Hq & Hu & Ha). exists (id, d). split; [|done].
  apply elem_of_getDocs; [reflexivity|]. split; [done|].
  by apply matches_orderedActive.
Qed.

(** For a customer with an active entry, once the snapshot of the queue has
    arrived, the position on the page is a rank within the queue, between 1
    and the number of active entries, and the progress bar is between 0 and
    100 percent wide. *)
Theorem position_within_queue u s w :
  hasActiveEntry s (uid u) →
  (1 ≤ queuePosition (viewOf u s w) ≤ Z.of_nat (activeCount s))%Z
  ∧ (0 ≤ barWidth (queuePosition (viewOf u s w)) ≤ 100)%Z.
Proof.
  intros Ha. unfold viewOf. rewrite shown_position.
  assert (Hr : (1 ≤ position (scan u (getDocs orderedActiveQuery s))
                ≤ Z.of_nat (activeCount s))%Z).
  { unfold scan, docs. rewrite <- length_orderedActive.
    pose proof (forEach_position_range u (getDocs orderedActiveQuery s) 0
                  (mkScan 0 0 false) ltac:(cbn; lia)) as Hrange.
    pose proof (forEach_position_listed u (getDocs orderedActiveQuery s) 0
                  (mkScan 0 0 false) ltac:(cbn; lia)
                  (listed_in_snapshot u s Ha)) as Hlow.
    cbn [position] in Hrange. lia. }
  split; [exact Hr|]. unfold barWidth. lia.
Qed.

Lemma position_within_queue_witness :
  hasActiveEntry (store Demo.world2) (uid Demo.bala)
  ∧ (1 ≤ queuePosition (viewOf Demo.bala (store Demo.world2) Demo.world0)
     ≤ Z.of_nat (activeCount (store Demo.world2)))%Z.
Proof.
  assert (Ha : hasActiveEntry (store Demo.world2) (uid Demo.bala)).
  { exists "e2", Demo.balaEntry.
    split; [vm_compute; reflexivity|].
    split; [reflexivity|]. left; reflexivity. }
  split; [exact Ha|].
  apply (position_within_queue Demo.bala (store Demo.world2) Demo.world0 Ha).
Defined.

Lemma sumZ_fmap_insert {A} (f : A → Z) (l : list A) k x y :
  l !! k = Some x →
  sumZ (f <$> <[k := y]> l) = (sumZ (f <$> l) - f x + f y)%Z.
Proof.
  revert k. induction l as [|a l IH]; intros k Hl; [done|].
  destruct k as [|k]; cbn in Hl.
  - injection Hl as ->. change (<[0 := y]> (x :: l)) with (y :: l).
    rewrite !fmap_cons, !sumZ_cons. lia.
  - change (<[S k := y]> (a :: l)) with (a :: <[k := y]> l).
    rewrite !fmap_cons, !sumZ_cons, (IH k Hl). lia.
Qed.

(** The staff starts the service of a waiting entry ahead of the customer:
    in the next snapshot that entry is [in-service]; the customer's position
    stays and the estimate drops by that entry's duration. *)
Theorem start_ahead_shortens_wait u snapshot w k rank id (d : QueueDoc) :
  snapshot !! k = Some (id, d) → status d = "waiting" →
  firstAt u snapshot rank → k < rank →
  let snapshot' := <[k := (id, setStatus "in-service" d)]> snapshot in
  estimatedWait (shown u snapshot' w)
  = (estimatedWait (shown u snapshot w) - serviceDuration d)%Z
  ∧ queuePosition (shown u snapshot' w) = queuePosition (shown u snapshot w).
Proof.
  intros Hk Hs [(e & Hl & He) Hfirst] Hlt snapshot'.
  assert (Hother : userId d ≠ uid u) by apply (Hfirst k (id, d) Hlt Hk).
  assert (Hf' : firstAt u snapshot' rank).
  { split.
    - exists e. split; [|done]. subst snapshot'.
      rewrite list_lookup_insert_ne by lia. done.
    - intros j e' Hj Hl'. subst snapshot'.
      destruct (decide (k = j)) as [->|Hne].
      + rewrite list_lookup_insert_eq in Hl'
          by (apply lookup_lt_Some in Hk; done).
        injection Hl' as <-. done.
      + rewrite list_lookup_insert_ne in Hl' by done. eauto. }
  rewrite !shown_wait, !shown_position. split.
  - rewrite (scan_wait_first u snapshot' rank Hf').
    rewrite (scan_wait_first u snapshot rank
               (conj (ex_intro _ e (conj Hl He)) Hfirst)).
    subst snapshot'. rewrite take_insert_lt by done.
    rewrite (sumZ_fmap_insert waitingDuration (take rank snapshot) k (id, d));
      [|by rewrite lookup_take_lt].
    unfold waitingDuration. cbn [snd status setStatus serviceDuration].
    rewrite Hs. cbn. lia.
  - unfold scan, docs. apply forEach_position_same_users; [|done].
    subst snapshot'.
    rewrite <- (list_insert_id snapshot k (id, d) Hk) at 2.
    apply Forall2_insert; [|reflexivity].
    apply Forall_Forall2_diag, Forall_forall. done.
Qed.

Lemma start_ahead_shortens_wait_witness :
  firstAt Demo2.chitra Demo2.three 2
  ∧ estimatedWait
      (shown Demo2.chitra
         (<[0 := ("e1", setStatus "in-service" Demo.ashaEntry)]> Demo2.three)
         Demo.world0)
    = (estimatedWait (shown Demo2.chitra Demo2.three Demo.world0) - 30)%Z.
Proof.
  assert (H2 : firstAt Demo2.chitra Demo2.three 2).
  { split; [eexists; split; reflexivity|]. intros j e' Hj Hl.
    destruct j as [|[|j]]; [| |lia]; injection Hl as <-; discriminate. }
  split; [exact H2|].
  apply (start_ahead_shortens_wait Demo2.chitra Demo2.three Demo.world0 0 2
           "e1" Demo.ashaEntry); [reflexivity | reflexivity | exact H2 | lia].
Defined.

(** An entry ahead of the customer leaves the queue (its service is
    completed, or it is removed): in the next snapshot it is missing; the
    customer moves up by one and the estimate drops by the entry's duration
    if it was waiting, and stays as it is otherwise. *)
Theorem leaving_ahead_moves_up u snapshot w k rank (x : Item) :
  snapshot !! k = Some x → firstAt u snapshot rank → k < rank →
  let snapshot' := delete k snapshot in
  estimatedWait (shown u snapshot' w)
  = (estimatedWait (shown u snapshot w) - waitingDuration x)%Z
  ∧ queuePosition (shown u snapshot' w)
    = (queuePosition (shown u snapshot w) - 1)%Z.
Proof.
  intros Hk [(e & Hl & He) Hfirst] Hlt snapshot'.
  set (l1 := take k snapshot). set (l2 := drop (S k) snapshot).
  assert (Hsplit : snapshot = (l1 ++ [x]) ++ l2)
    by (rewrite <- app_assoc; symmetry; apply take_drop_middle; done).
  assert (Hsplit' : snapshot' = l1 ++ l2) by apply delete_take_drop.
  assert (Hlen : length l1 = k).
  { subst l1. rewrite length_take_le; [done|].
    apply lookup_lt_Some in Hk. lia. }
  assert (Hno1 : ∀ e', e' ∈ l1 → userId e'.2 ≠ uid u).
  { intros e' He'. apply elem_of_take in He' as (j & Hj & Hjk).
    apply (Hfirst j e'); [lia|done]. }
  assert (Hnox : ∀ e', e' ∈ l1 ++ [x] → userId e'.2 ≠ uid u).
  { intros e' He'. apply elem_of_app in He' as [He'|He']; [by apply Hno1|].
    apply list_elem_of_singleton in He' as ->. apply (Hfirst k x Hlt Hk). }
  assert (Hf2 : firstAt u l2 (rank - S k)).
  { split.
    - exists e. split; [|done]. subst l2. rewrite lookup_drop.
      replace (S k + (rank - S k)) with rank by lia. done.
    - intros j e' Hj Hl2. subst l2. rewrite lookup_drop in Hl2.
      apply (Hfirst (S k + j) e'); [lia|done]. }
  assert (Hlisted : ∃ e', e' ∈ l2 ∧ userId e'.2 = uid u).
  { destruct Hf2 as [(e2 & Hl2 & He2) _]. exists e2. split; [|done].
    apply list_elem_of_lookup. eauto. }
  rewrite !shown_wait, !shown_position. unfold scan, docs.
  rewrite Hsplit', Hsplit.
  rewrite (forEach_app (visit u) l1 l2), (forEach_app (visit u) (l1 ++ [x]) l2).
  rewrite (forEach_visit_before u (l1 ++ [x])), (forEach_visit_before u l1);
    [|done..].
  rewrite length_app, Hlen. cbn [length position waitTime].
  replace (0 + (k + 1)) with (S k) by lia. replace (0 + k) with k by lia.
  split.
  - rewrite (forEach_wait_first u l2 (S k)
               (mkScan 0 (0 + sumZ (waitingDuration <$> l1 ++ [x])) false)
               (rank - S k) eq_refl Hf2).
    rewrite (forEach_wait_first u l2 k
               (mkScan 0 (0 + sumZ (waitingDuration <$> l1)) false)
               (rank - S k) eq_refl Hf2).
    cbn [waitTime]. rewrite fmap_app, sumZ_app. cbn. lia.
  - rewrite (forEach_position_shift u l2 k _
               (mkScan 0 (0 + sumZ (waitingDuration <$> l1)) false) Hlisted).
    lia.
Qed.

Lemma leaving_ahead_moves_up_witness :
  firstAt Demo2.chitra Demo2.three 2
  ∧ estimatedWait (shown Demo2.chitra (delete 0 Demo2.three) Demo.world0)
    = (estimatedWait (shown Demo2.chitra Demo2.three Demo.world0)
       - waitingDuration ("e1", Demo.ashaEntry))%Z
  ∧ queuePosition (shown Demo2.chitra (delete 0 Demo2.three) Demo.world0)
    = (queuePosition (shown Demo2.chitra Demo2.three Demo.world0) - 1)%Z.
Proof.
  assert (H2 : firstAt Demo2.chitra Demo2.three 2).
  { split; [eexists; split; reflexivity|]. intros j e' Hj Hl.
    destruct j as [|[|j]]; [| |lia]; injection Hl as <-; discriminate. }
  split; [exact H2|].
  apply (leaving_ahead_moves_up Demo2.chitra Demo2.three Demo.world0 0 2
           ("e1", Demo.ashaEntry)); [reflexivity | exact H2 | lia].
Defined.

End EstimatorAndStore.

(** ** Joining, once more *)

Section JoinExtras.

Implicit Types (ctx : AppContext) (service : Service) (w : World) (s : Store).

Lemma hasActiveEntry_added s id (wr : QueueWrite) :
  isActive (stored s wr) → hasActiveEntry (addDoc id wr s) (userId wr).
Proof.
  intros Ha. exists id, (stored s wr). split; [|done].
  unfold addDoc. cbn [queue]. apply lookup_insert_eq.
Qed.

(** A customer who has just joined and submits again, for whatever service,
    is refused: the second call writes nothing, leaves the store as the
    first call left it, and shows the alert. *)
Theorem second_join_is_refused ctx service service' w id wr :
  OpAddDoc id wr ∈ ops (run (handleJoinQueue ctx service) w) →
  let w1 := final (run (handleJoinQueue ctx service) w) in
  let r2 := run (handleJoinQueue ctx service') w1 in
  store (final r2) = store w1
  ∧ (∀ id' wr', OpAddDoc id' wr' ∉ ops r2)
  ∧ show (alertInfo (ui (final r2))) = true.
Proof.
  intros Hin w1 r2.
  destruct (join_added ctx service w id wr Hin)
    as (u & Hu & Hd & Ha & -> & ->).
  assert (Hnow : hasActiveEntry (store w1) (uid u)).
  { subst w1. rewrite (run_join_new ctx service u w Hu Hd Ha).
    cbn [final store].
    apply (hasActiveEntry_added (store w) _
             (newEntry u service
                (size (getDocs allActiveQuery (store w)) + 1))).
    left. reflexivity. }
  subst r2. rewrite (run_join_existing ctx service' u w1 Hu Hd Hnow).
  cbn [final store ops ui applyUi alertInfo show].
  split; [done|]. split; [|done].
  intros id' wr' Hin'. apply list_elem_of_singleton in Hin'. discriminate.
Qed.

Lemma second_join_is_refused_witness :
  OpAddDoc "e2" (newEntry Demo.bala Demo.shave 2)
    ∈ ops (run (handleJoinQueue (Demo.customer Demo.bala) Demo.shave)
             (Demo.later Demo.world1))
  ∧ store (final (run (handleJoinQueue (Demo.customer Demo.bala) Demo.haircut)
                    Demo.world2))
    = store Demo.world2.
Proof.
  assert (Hin : OpAddDoc "e2" (newEntry Demo.bala Demo.shave 2)
            ∈ ops (run (handleJoinQueue (Demo.customer Demo.bala) Demo.shave)
                     (Demo.later Demo.world1))).
  { vm_compute. do 2 right. left. }
  split; [exact Hin|].
  apply (second_join_is_refused (Demo.customer Demo.bala) Demo.shave
           Demo.haircut (Demo.later Demo.world1) "e2" _ Hin).
Defined.

(** A join under a document id that is not in use adds exactly one active
    entry: the number of active entries grows by one, every other document
    of the queue stays as it is, and neither the services nor the server's
    clock are touched. *)
Theorem join_adds_one_entry ctx service w id wr :
  OpAddDoc id wr ∈ ops (run (handleJoinQueue ctx service) w) →
  queue (store w) !! id = None →
  let s' := store (final (run (handleJoinQueue ctx service) w)) in
  activeCount s' = S (activeCount (store w))
  ∧ (∀ id', id' ≠ id → queue s' !! id' = queue (store w) !! id')
  ∧ services s' = services (store w)
  ∧ serverTime s' = serverTime (store w).
Proof.
  intros Hin Hfresh s'.
  destruct (join_added ctx service w id wr Hin)
    as (u & Hu & Hd & Ha & -> & ->).
  subst s'. rewrite (run_join_new ctx service u w Hu Hd Ha).
  cbn [final store].
  split; [|split; [|done]].
  - unfold activeCount, addDoc. cbn [queue].
    rewrite map_filter_insert_True by (left; reflexivity).
    apply map_size_insert_None.
    rewrite map_lookup_filter_None. left. exact Hfresh.
  - intros id' Hne. unfold addDoc. cbn [queue]. by rewrite lookup_insert_ne.
Qed.

Lemma join_adds_one_entry_witness :
  OpAddDoc "e2" (newEntry Demo.bala Demo.shave 2)
    ∈ ops (run (handleJoinQueue (Demo.customer Demo.bala) Demo.shave)
             (Demo.later Demo.world1))
  ∧ queue (store (Demo.later Demo.world1)) !! "e2" = None
  ∧ activeCount (store Demo.world2)
    = S (activeCount (store (Demo.later Demo.world1))).
Proof.
  assert (Hin : OpAddDoc "e2" (newEntry Demo.bala Demo.shave 2)
            ∈ ops (run (handleJoinQueue (Demo.customer Demo.bala) Demo.shave)
                     (Demo.later Demo.world1))).
  { vm_compute. do 2 right. left. }
  assert (Hfresh : queue (store (Demo.later Demo.world1)) !! "e2" = None)
    by (vm_compute; reflexivity).
  split; [exact Hin|]. split; [exact Hfresh|].
  apply (join_adds_one_entry (Demo.customer Demo.bala) Demo.shave
           (Demo.later Demo.world1) "e2" _ Hin Hfresh).
Defined.

(** Run without interference, and given a document id that is not in use,
    [handleJoinQueue] keeps the store free of customers with two active
    entries. *)
Theorem join_keeps_one_active_per_user ctx service w :
  oneActivePerUser (store w) →
  queue (store w) !! autoId w (issued w) = None →
  oneActivePerUser (store (final (run (handleJoinQueue ctx service) w))).
Proof.
  intros Hone Hfresh.
  destruct (user ctx) as [u|] eqn:Hu;
    [|by rewrite handleJoinQueue_guard by auto].
  destruct (db ctx) as [[]|] eqn:Hd;
    [|by rewrite handleJoinQueue_guard by auto].
  destruct (decide (hasActiveEntry (store w) (uid u))) as [Ha|Ha].
  - by rewrite (run_join_existing ctx service u w) by eauto.
  - rewrite (run_join_new ctx service u w) by eauto.
    cbn [final store addDoc].
    intros id1 id2 d1 d2 H1 H2 A1 A2 Hsame.
    unfold addDoc in H1, H2. cbn [queue] in H1, H2.
    rewrite lookup_insert in H1, H2.
    destruct (decide (autoId w (issued w) = id1)) as [E1|N1];
      destruct (decide (autoId w (issued w) = id2)) as [E2|N2].
    + congruence.
    + exfalso. apply Ha. exists id2, d2. injection H1 as <-.
      cbn in Hsame. done.
    + exfalso. apply Ha. exists id1, d1. injection H2 as <-.
      cbn in Hsame. done.
    + by apply (Hone id1 id2 d1 d2).
Qed.

Lemma oneActive_world1 : oneActivePerUser (store (Demo.later Demo.world1)).
Proof.
  assert (Hq : queue (store (Demo.later Demo.world1))
               = <["e1" := Demo.ashaEntry]> ∅) by (vm_compute; reflexivity).
  intros id1 id2 d1 d2 H1 H2 _ _ _. rewrite Hq in H1, H2.
  apply lookup_insert_Some in H1 as [[<- _]|[_ H1]];
    [|by rewrite lookup_empty in H1].
  apply lookup_insert_Some in H2 as [[<- _]|[_ H2]];
    [|by rewrite lookup_empty in H2].
  reflexivity.
Qed.

Lemma join_keeps_one_active_per_user_witness :
  oneActivePerUser (store (Demo.later Demo.world1))
  ∧ oneActivePerUser (store Demo.world2).
Proof.
  split; [exact oneActive_world1|].
  apply (join_keeps_one_active_per_user (Demo.customer Demo.bala) Demo.shave
           (Demo.later Demo.world1) oneActive_world1).
  vm_compute. reflexivity.
Defined.

(** The existence check and the insertion are separate store operations.
    If another session stores an active entry of the same customer after the
    check, [handleJoinQueue] inserts all the same, and the customer has two
    active entries. *)
Theorem interleaved_join_duplicates env n ctx service u w :
  user ctx = Some u → is_Some (db ctx) →
  let s0 := env n (store w) in
  let s2 := env (S (S n)) (env (S n) s0) in
  ¬ hasActiveEntry s0 (uid u) →
  (∃ id' d', id' ≠ autoId w (issued w) ∧ queue s2 !! id' = Some d'
             ∧ userId d' = uid u ∧ isActive d') →
  ¬ oneActivePerUser
      (store (final (runWith env n (handleJoinQueue ctx service) w))).
Proof.
  intros Hu Hd s0 s2 Ha (id' & d' & Hne & Hq & Hud & Had) Hone.
  rewrite (runWith_join_new env n ctx service u w Hu Hd Ha) in Hone.
  cbn [final store] in Hone. apply Hne.
  apply (Hone id' (autoId w (issued w)) d'
           (stored s2 (newEntry u service
                         (size (getDocs allActiveQuery (env (S n) s0)) + 1)))).
  - unfold addDoc. cbn [queue]. by rewrite lookup_insert_ne.
  - unfold addDoc. cbn [queue]. apply lookup_insert_eq.
  - done.
  - left. reflexivity.
  - done.
Qed.

Lemma interleaved_join_duplicates_witness :
  ¬ hasActiveEntry (Demo2.secondTab 0 (store (Demo.later Demo.world1)))
      (uid Demo.bala)
  ∧ ¬ oneActivePerUser
        (store (final (runWith Demo2.secondTab 0
                         (handleJoinQueue (Demo.customer Demo.bala)
                            Demo.shave)
                         (Demo.later Demo.world1)))).
Proof.
  assert (Ha : ¬ hasActiveEntry
                 (Demo2.secondTab 0 (store (Demo.later Demo.world1)))
                 (uid Demo.bala)).
  { intros (id & d & Hq & Hd & _).
    assert (Hm : queue (Demo2.secondTab 0 (store (Demo.later Demo.world1)))
                 = <["e1" := Demo.ashaEntry]> ∅) by (vm_compute; reflexivity).
    rewrite Hm in Hq.
    apply lookup_insert_Some in Hq as [[_ <-]|[_ Hq]];
      [discriminate | by rewrite lookup_empty in Hq]. }
  split; [exact Ha|].
  apply (interleaved_join_duplicates Demo2.secondTab 0
           (Demo.customer Demo.bala) Demo.shave Demo.bala
           (Demo.later Demo.world1)); [reflexivity | by eexists | exact Ha |].
  exists "t1".
  eexists. split; [discriminate|]. split; [vm_compute; reflexivity|].
  split; [reflexivity | left; reflexivity].
Defined.

(** Every attempt of a signed-in customer to join ends on the status page
    with no alert left: at once when the entry is added, and after OK on the
    alert when the customer was already queued. *)
Theorem join_ends_on_status_page ctx service u w :
  user ctx = Some u → is_Some (db ctx) →
  let w' := dismissAlert (final (run (handleJoinQueue ctx service) w)) in
  route (ui w') = "/queue-status"
  ∧ show (alertInfo (ui w')) = false
  ∧ store w' = store (final (run (handleJoinQueue ctx service) w)).
Proof.
  intros Hu Hd w'. subst w'.
  destruct (decide (hasActiveEntry (store w) (uid u))) as [Ha|Ha].
  - rewrite (run_join_existing ctx service u w Hu Hd Ha).
    repeat split; reflexivity.
  - rewrite (run_join_new ctx service u w Hu Hd Ha).
    unfold dismissAlert. cbn [final ui applyUi alertInfo].
    destruct (show (alertInfo (ui w))) eqn:Hshow;
      repeat split; try reflexivity; exact Hshow.
Qed.

Lemma join_ends_on_status_page_witness :
  user (Demo.customer Demo.bala) = Some Demo.bala
  ∧ route (ui (dismissAlert
                 (final (run (handleJoinQueue (Demo.customer Demo.bala)
                                Demo.haircut) Demo.world2))))
    = "/queue-status".
Proof.
  split; [reflexivity|].
  apply (join_ends_on_status_page (Demo.customer Demo.bala) Demo.haircut
           Demo.bala Demo.world2); [reflexivity | by eexists].
Defined.

End JoinExtras.

(** ** The status page right after a join *)

Section AfterJoin.

Implicit Types (ctx : AppContext) (service : Service) (w : World) (s : Store).

Lemma doc_le_total : Total (doc_le true).
Proof.
  intros a b. unfold doc_le, doc_leb.
  destruct (Z.lt_trichotomy (createdAt a.2) (createdAt b.2)) as [H|[H|H]].
  - left. apply orb_true_iff. left. by apply Z.ltb_lt.
  - destruct (String.leb_total a.1 b.1) as [Hl|Hl].
    + left. apply orb_true_iff. right. apply andb_true_iff.
      split; [by apply Z.eqb_eq | done].
    + right. apply orb_true_iff. right. apply andb_true_iff.
      split; [by apply Z.eqb_eq | done].
  - right. apply orb_true_iff. left. by apply Z.ltb_lt.
Qed.

(** In a sorted list without repetition, an element that precedes no other
    is the last. *)
Lemma last_of_sorted {A} (R : A → A → Prop) (l : list A) (x : A) :
  Sorted R l → NoDup l → x ∈ l →
  (∀ y, y ∈ l → y ≠ x → ¬ R x y) →
  ∃ l', l = l' ++ [x].
Proof.
  induction l as [|a l IH]; intros Hs Hnd Hin Hx; [inversion Hin|].
  apply Sorted_inv in Hs as [Hs Hhd]. apply NoDup_cons in Hnd as [Ha Hnd].
  destruct l as [|b l].
  - apply list_elem_of_singleton in Hin as ->. by exists [].
  - destruct (IH Hs Hnd) as [l' Hl'].
    + apply elem_of_cons in Hin as [->|Hin]; [|done].
      exfalso. apply HdRel_inv in Hhd.
      apply (Hx b); [right; left | | done].
      intros ->. apply Ha. left.
    + intros y Hy. apply Hx. by right.
    + exists (a :: l'). by rewrite Hl'.
Qed.

Lemma sumZ_fmap_Permutation {A} (f : A → Z) (l k : list A) :
  l ≡ₚ k → sumZ (f <$> l) = sumZ (f <$> k).
Proof.
  induction 1 as [|x l k _ IH|x y l|l k m _ IH1 _ IH2].
  - reflexivity.
  - rewrite !fmap_cons, !sumZ_cons. lia.
  - rewrite !fmap_cons, !sumZ_cons. lia.
  - congruence.
Qed.

(** The snapshot of the active queue after a document has been added under
    an unused id, later than all others: the old entries in some order, then
    the new one. *)
Lemma snapshot_after_add s id (wr : QueueWrite) :
  queue s !! id = None → isActive (stored s wr) →
  (∀ id' d', queue s !! id' = Some d' → isActive d' →
             (createdAt d' < createdAt (stored s wr))%Z) →
  ∃ l, getDocs orderedActiveQuery (addDoc id wr s) = l ++ [(id, stored s wr)]
       ∧ l ≡ₚ getDocs orderedActiveQuery s.
Proof.
  intros Hfresh Hact Hlate.
  set (x := (id, stored s wr)).
  set (L := getDocs orderedActiveQuery (addDoc id wr s)).
  assert (Hperm : L ≡ₚ x :: matching orderedActiveQuery s).
  { subst L.
    rewrite (getDocs_Permutation orderedActiveQuery (addDoc id wr s) eq_refl).
    unfold matching, addDoc.
    cbn [queue]. rewrite (map_to_list_insert _ _ _ Hfresh).
    rewrite filter_cons_True; [done|].
    cbn [snd]. by apply matches_orderedActive. }
  assert (Hnd : NoDup L).
  { rewrite Hperm. apply NoDup_cons. split.
    - intros Hin. apply elem_of_matching in Hin as [Hq _]. congruence.
    - unfold matching. apply NoDup_filter, NoDup_map_to_list. }
  assert (Hs : Sorted (doc_le true) L).
  { subst L. unfold getDocs. cbn [limitOf orderedActiveQuery applyLimit].
    apply (@Sorted_merge_sort _ (doc_le true) _ doc_le_total). }
  destruct (last_of_sorted (doc_le true) L x Hs Hnd) as [l Hl].
  - rewrite Hperm. left.
  - intros [id' d'] Hy Hne Hle. rewrite Hperm in Hy.
    apply elem_of_cons in Hy as [Hy|Hy]; [done|].
    apply elem_of_matching in Hy as [Hq Hm].
    apply matches_orderedActive in Hm.
    specialize (Hlate id' d' Hq Hm).
    unfold doc_le, doc_leb in Hle. subst x. cbn [fst snd] in Hle.
    apply orb_true_iff in Hle as [Hle|Hle].
    + apply Z.ltb_lt in Hle. lia.
    + apply andb_true_iff in Hle as [Hle _]. apply Z.eqb_eq in Hle. lia.
  - exists l. split; [exact Hl|].
    rewrite (getDocs_Permutation orderedActiveQuery s eq_refl).
    apply (Permutation_cons_inv (a := x)).
    rewrite <- Hperm, Hl. by rewrite Permutation_app_comm.
Qed.

(** After a join that has run without interference from other sessions and
    has added an entry, when the server's clock was later than the time
    stamp of every active entry and the new document id was not in use, the
    status page of the customer, computed from the store as the join has
    left it, shows the position that was stored as [queueNumber], and as
    estimate the durations of all entries that were waiting before. *)
Theorem position_after_join ctx service u w w0 id wr :
  user ctx = Some u →
  OpAddDoc id wr ∈ ops (run (handleJoinQueue ctx service) w) →
  queue (store w) !! id = None →
  (∀ id' d', queue (store w) !! id' = Some d' → isActive d' →
             (createdAt d' < serverTime (store w))%Z) →
  let s' := store (final (run (handleJoinQueue ctx service) w)) in
  queuePosition (viewOf u s' w0) = queueNumber wr
  ∧ estimatedWait (viewOf u s' w0)
    = sumZ (waitingDuration <$> getDocs orderedActiveQuery (store w)).
Proof.
  intros Hu Hin Hfresh Hlate s'.
  destruct (join_added ctx service w id wr Hin)
    as (u' & Hu' & Hd & Ha & -> & ->).
  assert (u' = u) by congruence. subst u'.
  subst s'. rewrite (run_join_new ctx service u w Hu Hd Ha).
  cbn [final store].
  set (wr := newEntry u service
               (size (getDocs allActiveQuery (store w)) + 1)).
  destruct (snapshot_after_add (store w) (autoId w (issued w)) wr Hfresh)
    as (l & Hl & Hperm).
  { left. reflexivity. }
  { exact Hlate. }
  assert (Hno : ∀ e, e ∈ l → userId e.2 ≠ uid u).
  { intros [id' d'] He Hud. rewrite Hperm in He.
    apply elem_of_getDocs in He as [Hq Hm]; [|reflexivity].
    apply matches_orderedActive in Hm. apply Ha. by exists id', d'. }
  unfold viewOf. rewrite shown_position, shown_wait, Hl.
  unfold scan, docs. rewrite forEach_app. cbn [forEach].
  rewrite (forEach_visit_before u l 0 (mkScan 0 0 false) eq_refl Hno).
  rewrite (visit_own u _ (autoId w (issued w), stored (store w) wr) _ eq_refl).
  cbn [position waitTime]. split.
  - subst wr. cbn [queueNumber newEntry]. rewrite size_allActive.
    rewrite Hperm, length_orderedActive. lia.
  - rewrite (sumZ_fmap_Permutation waitingDuration _ _ Hperm). lia.
Qed.

Lemma position_after_join_witness :
  OpAddDoc "e2" (newEntry Demo.bala Demo.shave 2)
    ∈ ops (run (handleJoinQueue (Demo.customer Demo.bala) Demo.shave)
             (Demo.later Demo.world1))
  ∧ queuePosition (viewOf Demo.bala (store Demo.world2) Demo.world0)
    = queueNumber (newEntry Demo.bala Demo.shave 2)
  ∧ estimatedWait (viewOf Demo.bala (store Demo.world2) Demo.world0)
    = sumZ (waitingDuration
              <$> getDocs orderedActiveQuery (store (Demo.later Demo.world1))).
Proof.
  assert (Hin : OpAddDoc "e2" (newEntry Demo.bala Demo.shave 2)
            ∈ ops (run (handleJoinQueue (Demo.customer Demo.bala) Demo.shave)
                     (Demo.later Demo.world1))).
  { vm_compute. do 2 right. left. }
  split; [exact Hin|].
  apply (position_after_join (Demo.customer Demo.bala) Demo.shave Demo.bala
           (Demo.later Demo.world1) Demo.world0 "e2" _ eq_refl Hin).
  - vm_compute. reflexivity.
  - intros id' d' Hq _.
    assert (Hm : queue (store (Demo.later Demo.world1))
                 = <["e1" := Demo.ashaEntry]> ∅) by (vm_compute; reflexivity).
    rewrite Hm in Hq.
    apply lookup_insert_Some in Hq as [[_ <-]|[_ Hq]];
      [|by rewrite lookup_empty in Hq].
    vm_compute. reflexivity.
Defined.

End AfterJoin.

(** ** The staff table, once more *)

Section StaffExtras.

Implicit Types (ctx : AppContext) (w : World) (id : DocId) (d : QueueDoc).

(** Remove followed by Cancel does nothing: no store operation is
    performed, the store is as before, the dialog is closed, and there is no
    confirmation button left to press. *)
Theorem cancelled_remove_changes_nothing ctx w index id d :
  queueList (ui w) !! index = Some (id, d) → id ≠ EmptyString →
  ∃ r, cancelledRemove ctx index w = Some r
       ∧ outcome r = Resolved tt
       ∧ ops r = []
       ∧ store (final r) = store w
       ∧ confirmingDelete (ui (final r)) = None
       ∧ click ctx ClickConfirm (final r) = None.
Proof.
  intros Hl Hid. unfold cancelledRemove, click at 1 2.
  cbn [onClick]. rewrite Hl, onClickOf_rowButtons.
  cbn [mbind option_bind handleRemoveRequest setState run final ui applyUi
         confirmingDelete onClick fst].
  rewrite (truthy_id id Hid). cbn [mbind option_bind].
  eexists. split; [reflexivity|]. repeat split.
Qed.

Lemma cancelled_remove_changes_nothing_witness :
  queueList (ui (Demo.staffView Demo.world2)) !! 0
  = Some ("e1", Demo.ashaEntry)
  ∧ ∃ r, cancelledRemove Demo.staff 0 (Demo.staffView Demo.world2) = Some r
         ∧ outcome r = Resolved tt
         ∧ ops r = []
         ∧ store (final r) = store (Demo.staffView Demo.world2)
         ∧ confirmingDelete (ui (final r)) = None
         ∧ click Demo.staff ClickConfirm (final r) = None.
Proof.
  assert (Hl : queueList (ui (Demo.staffView Demo.world2)) !! 0
               = Some ("e1", Demo.ashaEntry)) by (vm_compute; reflexivity).
  split; [exact Hl|].
  apply (cancelled_remove_changes_nothing Demo.staff
           (Demo.staffView Demo.world2) 0 "e1" Demo.ashaEntry Hl).
  discriminate.
Defined.

(** In a snapshot of the active queue no row gets the "Unknown" chip; the
    Start button is on exactly the rows with the "Waiting" chip and the
    Complete button on exactly those with the "In Service" chip. *)
Theorem chip_of_active_row ctx (s : Store) id d :
  (id, d) ∈ getDocs orderedActiveQuery s →
  getStatusChip (status d) ≠ UnknownChip
  ∧ (is_Some (onClickOf StartButton (rowButtons ctx (id, d)))
     ↔ getStatusChip (status d) = WaitingChip)
  ∧ (is_Some (onClickOf CompleteButton (rowButtons ctx (id, d)))
     ↔ getStatusChip (status d) = InServiceChip).
Proof.
  intros Hin. apply elem_of_getDocs in Hin as [_ Hm]; [|reflexivity].
  apply matches_orderedActive in Hm.
  rewrite !onClickOf_rowButtons. unfold getStatusChip. cbn [snd fst].
  destruct Hm as [-> | ->]; cbn; repeat split;
    try discriminate; try (intros [? ?]; discriminate); eauto.
Qed.

Lemma chip_of_active_row_witness :
  ("e1", Demo.ashaEntry) ∈ getDocs orderedActiveQuery (store Demo.world2)
  ∧ getStatusChip (status Demo.ashaEntry) ≠ UnknownChip.
Proof.
  assert (Hin : ("e1", Demo.ashaEntry)
                ∈ getDocs orderedActiveQuery (store Demo.world2)).
  { vm_compute. left. }
  split; [exact Hin|].
  apply (chip_of_active_row Demo.staff (store Demo.world2) "e1"
           Demo.ashaEntry Hin).
Defined.

Lemma deleteDoc_missing (s : Store) id :
  queue s !! id = None → deleteDoc queueCollection id s = s.
Proof.
  intros Hq. destruct s as [q sv t]. cbn in *. by rewrite delete_id.
Qed.

(** A row that is still shown after another session has removed its entry:
    Start and Complete, where the row offers them, are rejected with
    [not_found] and change nothing at all; Remove goes through, and leaves
    the store as it is. *)
Theorem actions_on_deleted_entry ctx w index id d :
  is_Some (db ctx) →
  queueList (ui w) !! index = Some (id, d) → id ≠ EmptyString →
  queue (store w) !! id = None →
  (∀ b r, b ≠ RemoveButton → staffAction ctx index b w = Some r →
          outcome r = Rejected not_found ∧ final r = w)
  ∧ ∃ r, staffAction ctx index RemoveButton w = Some r
         ∧ outcome r = Resolved tt ∧ store (final r) = store w.
Proof.
  intros Hd Hl Hid Hq. split.
  - intros b r Hb Hact.
    destruct b; [| |done]; cbn [staffAction] in Hact; unfold click in Hact;
      cbn [onClick] in Hact; rewrite Hl, onClickOf_rowButtons in Hact;
      cbn [fst snd] in Hact.
    + destruct (String.eqb (status d) "waiting"); [|discriminate].
      cbn [mbind option_bind] in Hact.
      rewrite (run_handleAction_missing ctx id _ w Hd Hq) in Hact.
      injection Hact as <-. done.
    + destruct (String.eqb (status d) "in-service"); [|discriminate].
      cbn [mbind option_bind] in Hact.
      rewrite (run_handleAction_missing ctx id _ w Hd Hq) in Hact.
      injection Hact as <-. done.
  - cbn [staffAction]. rewrite (removeAction_row ctx index w id d Hd Hl Hid).
    eexists. split; [reflexivity|]. split; [reflexivity|].
    cbn [final store]. by apply deleteDoc_missing.
Qed.

Lemma actions_on_deleted_entry_witness :
  queue (deleteDoc queueCollection "e1" (store Demo.world1)) !! "e1" = None
  ∧ ∃ r, staffAction Demo.staff 0 RemoveButton
           (withStore (deleteDoc queueCollection "e1" (store Demo.world1))
              (Demo.staffView Demo.world1)) = Some r
         ∧ outcome r = Resolved tt
         ∧ store (final r)
           = deleteDoc queueCollection "e1" (store Demo.world1).
Proof.
  assert (Hq : queue (deleteDoc queueCollection "e1" (store Demo.world1))
               !! "e1" = None) by apply lookup_delete_eq.
  split; [exact Hq|].
  apply (actions_on_deleted_entry Demo.staff
           (withStore (deleteDoc queueCollection "e1" (store Demo.world1))
              (Demo.staffView Demo.world1)) 0 "e1" Demo.ashaEntry);
    [by eexists | vm_compute; reflexivity | discriminate | exact Hq].
Defined.

Lemma oneActive_setStatus (s : Store) id d (st : string) :
  queue s !! id = Some d → isActive d → oneActivePerUser s →
  oneActivePerUser
    (mkStore (<[id := setStatus st d]> (queue s)) (services s) (serverTime s)).
Proof.
  intros Hq Ha Hone id1 id2 d1 d2 H1 H2 A1 A2 Hsame. cbn [queue] in H1, H2.
  rewrite lookup_insert in H1, H2.
  destruct (decide (id = id1)) as [<-|N1];
    destruct (decide (id = id2)) as [<-|N2].
  - reflexivity.
  - injection H1 as <-. by apply (Hone id id2 d d2).
  - injection H2 as <-. by apply (Hone id1 id d1 d).
  - by apply (Hone id1 id2 d1 d2).
Qed.

Lemma oneActive_delete (s : Store) id :
  oneActivePerUser s → oneActivePerUser (deleteDoc queueCollection id s).
Proof.
  intros Hone id1 id2 d1 d2 H1 H2. cbn [deleteDoc queue] in H1, H2.
  apply lookup_delete_Some in H1 as [_ H1].
  apply lookup_delete_Some in H2 as [_ H2].
  by apply (Hone id1 id2 d1 d2).
Qed.

(** On a table that shows the current snapshot, no staff action makes a
    customer have two active entries. *)
Theorem staff_actions_keep_one_active_per_user ctx w index b r :
  is_Some (db ctx) →
  queueList (ui w) = getDocs orderedActiveQuery (store w) →
  oneActivePerUser (store w) →
  staffAction ctx index b w = Some r →
  oneActivePerUser (store (final r)).
Proof.
  intros Hd Hfresh Hone Hact.
  destruct (queueList (ui w) !! index) as [[id d]|] eqn:Hl.
  - destruct (fresh_row w index id d Hfresh Hl) as [Hq Ha].
    destruct b; cbn [staffAction] in Hact.
    + unfold click in Hact. cbn [onClick] in Hact.
      rewrite Hl, onClickOf_rowButtons in Hact. cbn [fst snd] in Hact.
      destruct (String.eqb (status d) "waiting"); [|discriminate].
      cbn [mbind option_bind] in Hact.
      rewrite (run_handleAction ctx id _ w d Hd Hq) in Hact.
      injection Hact as <-. cbn [final withStore store].
      by apply oneActive_setStatus.
    + unfold click in Hact. cbn [onClick] in Hact.
      rewrite Hl, onClickOf_rowButtons in Hact. cbn [fst snd] in Hact.
      destruct (String.eqb (status d) "in-service"); [|discriminate].
      cbn [mbind option_bind] in Hact.
      rewrite (run_handleAction ctx id _ w d Hd Hq) in Hact.
      injection Hact as <-. cbn [final withStore store].
      by apply oneActive_setStatus.
    + destruct id as [|c id].
      * unfold removeAction, click in Hact. cbn [onClick] in Hact.
        rewrite Hl, onClickOf_rowButtons in Hact. discriminate.
      * rewrite (removeAction_row ctx index w _ d Hd Hl) in Hact by done.
        injection Hact as <-. cbn [final store]. by apply oneActive_delete.
  - destruct b; unfold staffAction, removeAction, click in Hact;
      cbn [onClick] in Hact; rewrite Hl in Hact; discriminate.
Qed.

Lemma oneActive_world2 : oneActivePerUser (store (Demo.staffView Demo.world2)).
Proof.
  assert (Hq : queue (store (Demo.staffView Demo.world2))
               = <["e1" := Demo.ashaEntry]> (<["e2" := Demo.balaEntry]> ∅))
    by (vm_compute; reflexivity).
  intros id1 id2 d1 d2 H1 H2 _ _ Hsame. rewrite Hq in H1, H2.
  rewrite !lookup_insert_Some, lookup_empty in H1, H2.
  destruct H1 as [[<- <-]|[_ [[<- <-]|[_ ?]]]]; [| |done];
    destruct H2 as [[<- <-]|[_ [[<- <-]|[_ ?]]]]; try done;
    discriminate.
Qed.

Lemma staff_actions_keep_one_active_per_user_witness :
  oneActivePerUser (store (Demo.staffView Demo.world2))
  ∧ oneActivePerUser (store Demo.world3).
Proof.
  split; [exact oneActive_world2|].
  apply (staff_actions_keep_one_active_per_user Demo.staff
           (Demo.staffView Demo.world2) 0 StartButton
           (run (handleAction Demo.staff "e1" "in-service")
              (Demo.staffView Demo.world2)));
    [by eexists | reflexivity | exact oneActive_world2 | reflexivity].
Defined.

End StaffExtras.

(** ** The authentication listener and the dashboard *)

Section AppExtras.

Implicit Types (cu : CurrentUser) (a : AppState) (ctx : AppContext)
  (users : gmap string (UserDoc Z)).

(** Handling a sign-in writes at most the document of the user who signs
    in.  When that document exists at the read, nothing is written and the
    collection stays as it was read.  When it does not, the documents of all
    other users are as the other sessions have left them, and the user's own
    document is the new one, with the role [customer] and the server's time:
    [setDoc] replaces whatever another session has stored under that id
    between the read and the write.  So, if the other sessions have kept the
    documents that were there at the read, the sign-in keeps them too, and
    with them their roles. *)
Theorem sign_in_writes_own_document_only cu pathname others now users a :
  let users' := (onAuthStateChanged (Some cu) pathname others now users a).1 in
  let me := uid (account cu) in
  (is_Some (users !! me) → users' = users)
  ∧ (users !! me = None →
     (∀ id, id ≠ me → users' !! id = others users !! id)
     ∧ users' !! me
       = Some (mkUserDoc cu (mkUserData (Some "customer")) now))
  ∧ ((∀ id d, users !! id = Some d → others users !! id = Some d) →
     ∀ id d, users !! id = Some d → users' !! id = Some d).
Proof.
  cbv zeta. unfold onAuthStateChanged.
  destruct (users !! uid (account cu)) as [d0|] eqn:Hu; cbn [fst].
  - split; [done|]. split; [done|]. done.
  - split; [by intros [? ?]|]. split.
    + intros _. split.
      * intros id Hne. by rewrite lookup_insert_ne.
      * by rewrite lookup_insert_eq.
    + intros Hkeep id d Hd. rewrite lookup_insert_ne; [by apply Hkeep|].
      congruence.
Qed.

(** A document stored for the user between the read and the write of the
    first sign-in is lost: the owner has made the user a member of the
    staff, and the sign-in writes the role [customer] over it. *)
Example sign_in_overwrites_promotion :
  let r := onAuthStateChanged (Some Demo2.someone) "/login"
             (Demo2.promoted Demo2.someone) 7 ∅ Demo2.loadingApp in
  (role ∘ data <$> Demo2.promoted Demo2.someone ∅ !! "A") = Some (Some "staff")
  ∧ (role ∘ data <$> r.1 !! "A") = Some (Some "customer")
  ∧ roleOf (context r.2) = Some "customer".
Proof. cbv zeta. repeat split; vm_compute; reflexivity. Qed.

Lemma roleIs_true ctx (r : string) : roleIs ctx r = true ↔ roleOf ctx = Some r.
Proof.
  unfold roleIs. destruct (roleOf ctx) as [r'|]; [|split; discriminate].
  rewrite String.eqb_eq. split; congruence.
Qed.



Lemma prefix_app_l (p q s : string) :
  String.prefix (p +:+ q) s = true → String.prefix p s = true.
Proof.
  revert s. induction p as [|c p IH]; intros s; [by destruct s|].
  change (String c p +:+ q) with (String c (p +:+ q)).
  destruct s as [|c' s]; cbn [String.prefix]; [done|].
  destruct (Ascii.ascii_dec c c'); [apply IH | done].
Qed.

Lemma kiosk_route_startsWith (pathname : string) :
  kioskRegex_test pathname = true → Js.startsWith pathname "/kiosk" = true.
Proof.
  unfold kioskRegex_test, Js.startsWith. intros H.
  apply orb_true_iff in H as [H|H].
  - apply String.eqb_eq in H as ->. reflexivity.
  - apply andb_true_iff in H as [H _].
    by apply (prefix_app_l "/kiosk" "/" pathname).
Qed.

Lemma kiosk_page firebaseConfig loading ctx (route : string) :
  firebaseConfig = true → loading = false → is_Some (db ctx) →
  kioskRegex_test route = true →
  renderContent firebaseConfig loading ctx route
  ∈ [KioskHomePage; KioskJoinQueuePage; KioskQueueBoardPage].
Proof.
  intros -> -> [[] Hdb] Hk. unfold renderContent. rewrite Hdb, Hk.
  cbn [negb orb].
  destruct (String.eqb route "/kiosk" || String.eqb route "/kiosk/home");
    [|destruct (String.eqb route "/kiosk/join");
      [|destruct (String.eqb route "/kiosk/board")]];
    rewrite !elem_of_cons; auto.
Qed.

(** After the listener has handled a sign-out, with Firebase initialised,
    nobody is signed in, the [users] collection is as before, and the
    application shows the login page, unless the address is a kiosk address,
    for which it shows a kiosk page.  An address that merely starts with
    [/kiosk] becomes the route, but still leads to the login page. *)
Theorem sign_out_shows_login_or_kiosk pathname others now users a :
  is_Some (db (context a)) →
  let r := onAuthStateChanged None pathname others now users a in
  r.1 = users
  ∧ user (context r.2) = None ∧ userData (context r.2) = None
  ∧ authLoading r.2 = false
  ∧ (kioskRegex_test pathname = false → pageOf r.2 = LoginPage)
  ∧ (kioskRegex_test pathname = true →
     appRoute r.2 = pathname
     ∧ pageOf r.2 ∈ [KioskHomePage; KioskJoinQueuePage; KioskQueueBoardPage]).
Proof.
  intros Hd r. subst r. unfold onAuthStateChanged. cbn [fst snd context].
  split; [done|]. split; [done|]. split; [done|]. split; [done|].
  destruct Hd as [[] Hdb]. split.
  - intros Hk. unfold pageOf. cbn [context appRoute authLoading].
    unfold renderContent. cbn [db user negb]. rewrite Hdb. cbn [orb negb].
    destruct (Js.startsWith pathname "/kiosk"); [by rewrite Hk | reflexivity].
  - intros Hk. rewrite (kiosk_route_startsWith pathname Hk).
    cbn [appRoute]. split; [done|]. unfold pageOf.
    cbn [context appRoute authLoading].
    apply kiosk_page; [done | done | by rewrite Hdb | done].
Qed.

Lemma sign_out_shows_login_or_kiosk_witness :
  is_Some (db (context Demo2.loadingApp))
  ∧ pageOf (onAuthStateChanged None "/kiosks" id 7 ∅ Demo2.loadingApp).2
    = LoginPage.
Proof.
  assert (Hd : is_Some (db (context Demo2.loadingApp))) by (by eexists).
  split; [exact Hd|].
  apply (sign_out_shows_login_or_kiosk "/kiosks" id 7 ∅ Demo2.loadingApp Hd).
  reflexivity.
Defined.

(** In the dashboard the settings page is shown to owners only, whatever the
    route; only owners have its navigation item; and every navigation item
    leads to the page it names. *)
Theorem settings_for_owner_only ctx :
  (∀ route : string,
     renderPage ctx route = SettingsPage → roleOf ctx = Some "owner")
  ∧ (("/dashboard/settings", "Settings") ∈ navItems ctx
     ↔ roleOf ctx = Some "owner")
  ∧ (∀ item, item ∈ navItems ctx → pageLabel (renderPage ctx item.1) = item.2).
Proof.
  split; [|split].
  - intros route Hp. unfold renderPage in Hp.
    destruct (roleIs ctx "owner") eqn:Hr; [by apply roleIs_true|].
    exfalso. rewrite andb_false_r in Hp.
    repeat match type of Hp with
           | context [if Js.startsWith ?r ?p then _ else _] =>
               destruct (Js.startsWith r p)
           end; cbn in Hp; discriminate.
  - unfold navItems. rewrite <- roleIs_true.
    destruct (roleIs ctx "owner").
    + split; [done|]. intros _. apply elem_of_app. right. left.
    + split; [|discriminate]. intros H.
      apply elem_of_app in H as [H|H]; [|by apply elem_of_nil in H].
      rewrite !elem_of_cons, elem_of_nil in H.
      destruct H as [H|[H|[H|[]]]]; discriminate.
  - intros item. unfold navItems. rewrite elem_of_app, !elem_of_cons,
      elem_of_nil.
    intros [[->|[->|[->|[]]]]|Hset]; try reflexivity.
    destruct (roleIs ctx "owner") eqn:Hr; [|by apply elem_of_nil in Hset].
    apply list_elem_of_singleton in Hset as ->.
    unfold renderPage. cbn. rewrite Hr. reflexivity.
Qed.

End AppExtras.

(** ** The configuration text *)

Section SetupStrings.

Import Setup.

Implicit Types (c : ascii) (s pre mid post : string).

Lemma append_cons c s t : String c s +:+ t = String c (s +:+ t).
Proof. reflexivity. Qed.

Lemma append_nil s : EmptyString +:+ s = s.
Proof. reflexivity. Qed.

Lemma append_assoc s t u : (s +:+ t) +:+ u = s +:+ t +:+ u.
Proof.
  induction s as [|c s IH]; [reflexivity|].
  rewrite !append_cons. by rewrite IH.
Qed.

Lemma length_append s t :
  String.length (s +:+ t) = String.length s + String.length t.
Proof.
  induction s as [|c s IH]; [reflexivity|].
  rewrite append_cons. cbn [String.length]. by rewrite IH.
Qed.

Lemma indexOf_range c s :
  (-1 ≤ indexOf c s < Z.of_nat (String.length s))%Z
  ∨ (indexOf c s = -1 ∧ s = EmptyString)%Z.
Proof.
  induction s as [|a s IH]; [right; done|]. left.
  cbn [indexOf String.length]. destruct (Ascii.eqb a c); [lia|].
  destruct (indexOf c s <? 0)%Z eqn:E; [lia|].
  apply Z.ltb_ge in E. destruct IH as [IH|[IH _]]; lia.
Qed.

Lemma indexOf_absent c s : occurs c s = false → indexOf c s = (-1)%Z.
Proof.
  induction s as [|a s IH]; [reflexivity|]. cbn [occurs indexOf].
  intros H. apply orb_false_iff in H as [-> H]. by rewrite (IH H).
Qed.

Lemma indexOf_before c s :
  occurs c s = true → indexOf c s = Z.of_nat (String.length (before c s)).
Proof.
  induction s as [|a s IH]; [discriminate|]. cbn [occurs indexOf before].
  destruct (Ascii.eqb a c); [reflexivity|]. cbn [orb]. intros H.
  rewrite (IH H). cbn [String.length].
  destruct (Z.of_nat _ <? 0)%Z eqn:E; [apply Z.ltb_lt in E; lia | lia].
Qed.

Lemma indexOf_append c pre s :
  occurs c pre = false → occurs c s = true →
  indexOf c (pre +:+ s)
  = (Z.of_nat (String.length pre) + indexOf c s)%Z.
Proof.
  intros Hpre Hs. induction pre as [|a pre IH]; [rewrite append_nil; cbn; lia|].
  cbn [occurs] in Hpre. apply orb_false_iff in Hpre as [Ha Hpre].
  rewrite append_cons. cbn [indexOf String.length]. rewrite Ha, (IH Hpre).
  rewrite (indexOf_before c s Hs).
  destruct (_ <? 0)%Z eqn:E; [apply Z.ltb_lt in E; lia | lia].
Qed.

Lemma lastIndexOf_absent c s : occurs c s = false → lastIndexOf c s = (-1)%Z.
Proof.
  induction s as [|a s IH]; [reflexivity|]. cbn [occurs lastIndexOf].
  intros H. apply orb_false_iff in H as [-> H]. by rewrite (IH H).
Qed.

Lemma lastIndexOf_append c s t :
  (0 ≤ lastIndexOf c t)%Z →
  lastIndexOf c (s +:+ t)
  = (Z.of_nat (String.length s) + lastIndexOf c t)%Z.
Proof.
  intros Ht. induction s as [|a s IH]; [rewrite append_nil; cbn; lia|].
  rewrite append_cons. cbn [lastIndexOf String.length]. rewrite IH.
  destruct (0 <=? _)%Z eqn:E; [lia | apply Z.leb_gt in E; lia].
Qed.

Lemma substring_0_0 s : String.substring 0 0 s = EmptyString.
Proof. by destruct s. Qed.

Lemma substring_skip pre s m :
  String.substring (String.length pre) m (pre +:+ s) = String.substring 0 m s.
Proof.
  induction pre as [|a pre IH]; [reflexivity|].
  rewrite append_cons. cbn [String.length String.substring]. exact IH.
Qed.

Lemma substring_take s t :
  String.substring 0 (String.length s) (s +:+ t) = s.
Proof.
  induction s as [|a s IH]; [apply substring_0_0|].
  rewrite append_cons. cbn [String.length String.substring]. by rewrite IH.
Qed.

Lemma before_prefix c s :
  String.substring 0 (String.length (before c s)) s = before c s.
Proof.
  induction s as [|a s IH]; [reflexivity|]. cbn [before].
  destruct (Ascii.eqb a c); [reflexivity|].
  cbn [String.length String.substring]. by rewrite IH.
Qed.

Lemma before_length c s : String.length (before c s) ≤ String.length s.
Proof.
  induction s as [|a s IH]; [done|]. cbn [before].
  destruct (Ascii.eqb a c); cbn [String.length]; lia.
Qed.

(** When the pasted text holds an object in braces, with no opening brace
    before it and no closing brace after it, what is handed to [JSON.parse]
    is exactly that object, braces included: the variable declaration around
    it is cut away. *)
Theorem jsonString_extracts_object pre mid post :
  occurs "{" pre = false → occurs "}" post = false →
  jsonString (pre +:+ "{" +:+ mid +:+ "}" +:+ post) = "{" +:+ mid +:+ "}".
Proof.
  intros Hpre Hpost.
  set (body := "{" +:+ mid +:+ "}").
  assert (Hs : pre +:+ "{" +:+ mid +:+ "}" +:+ post
               = pre +:+ body +:+ post).
  { subst body. by rewrite !append_assoc. }
  assert (Hlen : 1 ≤ String.length body).
  { change body with (String "{" (mid +:+ "}")). cbn [String.length]. lia. }
  rewrite Hs. unfold jsonString.
  assert (Hi : indexOf "{" (pre +:+ body +:+ post)
               = Z.of_nat (String.length pre)).
  { rewrite indexOf_append; [|done|reflexivity].
    change (indexOf "{" (body +:+ post)) with 0%Z. lia. }
  assert (Hj : lastIndexOf "}" (pre +:+ body +:+ post)
               = (Z.of_nat (String.length pre)
                  + Z.of_nat (String.length body) - 1)%Z).
  { assert (Hp : lastIndexOf "}" (String "}" post) = 0%Z).
    { cbn [lastIndexOf]. rewrite (lastIndexOf_absent _ _ Hpost). reflexivity. }
    assert (Hb : lastIndexOf "}" (body +:+ post)
                 = (Z.of_nat (String.length body) - 1)%Z).
    { subst body. rewrite !append_assoc.
      change ("}" +:+ post) with (String "}" post).
      assert (Hm : lastIndexOf "}" (mid +:+ String "}" post)
                   = Z.of_nat (String.length mid)).
      { rewrite lastIndexOf_append by lia. lia. }
      change ("{" +:+ ?x) with (String "{" x).
      cbn [lastIndexOf String.length]. rewrite Hm, length_append.
      cbn [String.length].
      destruct (0 <=? _)%Z eqn:E; [lia | apply Z.leb_gt in E; lia]. }
    rewrite lastIndexOf_append; rewrite Hb; lia. }
  unfold substring. rewrite Hi, Hj, !length_append.
  replace (Z.max 0 (Z.min (Z.of_nat (String.length pre))
                      (Z.of_nat (String.length pre
                                 + (String.length body + String.length post)))))
    with (Z.of_nat (String.length pre)) by lia.
  replace (Z.max 0 (Z.min (Z.of_nat (String.length pre)
                           + Z.of_nat (String.length body) - 1 + 1)
                      (Z.of_nat (String.length pre
                                 + (String.length body + String.length post)))))
    with (Z.of_nat (String.length pre + String.length body)) by lia.
  replace (Z.to_nat (Z.min (Z.of_nat (String.length pre))
                       (Z.of_nat (String.length pre + String.length body))))
    with (String.length pre) by lia.
  replace (Z.to_nat (Z.max (Z.of_nat (String.length pre))
                       (Z.of_nat (String.length pre + String.length body))
                     - Z.min (Z.of_nat (String.length pre))
                         (Z.of_nat (String.length pre + String.length body))))
    with (String.length body) by lia.
  rewrite substring_skip. apply substring_take.
Qed.

Lemma jsonString_extracts_object_witness :
  occurs "{" "const firebaseConfig = " = false
  ∧ occurs "}" ";" = false
  ∧ jsonString ("const firebaseConfig = " +:+ "{" +:+ " apiKey: k " +:+ "}"
                +:+ ";")
    = "{" +:+ " apiKey: k " +:+ "}".
Proof.
  split; [reflexivity|]. split; [reflexivity|].
  apply (jsonString_extracts_object "const firebaseConfig = " " apiKey: k "
           ";"); reflexivity.
Defined.

(** When the pasted text has no closing brace at all, what is handed to
    [JSON.parse] is the text in front of the first opening brace, and the
    empty text if there is no opening brace either: the two indices arrive
    in the wrong order and [substring] swaps them. *)
Theorem jsonString_without_closing_brace s :
  occurs "}" s = false →
  jsonString s = if occurs "{" s then before "{" s else EmptyString.
Proof.
  intros Hno. unfold jsonString, substring.
  rewrite (lastIndexOf_absent _ _ Hno).
  change (-1 + 1)%Z with 0%Z.
  pose proof (before_length "{" s) as Hb.
  destruct (occurs "{" s) eqn:Ho.
  - rewrite (indexOf_before _ _ Ho).
    replace (Z.to_nat _) with 0 by lia.
    replace (Z.to_nat _) with (String.length (before "{" s)) by lia.
    apply before_prefix.
  - rewrite (indexOf_absent _ _ Ho).
    replace (Z.to_nat _) with 0 by lia.
    replace (Z.to_nat _) with 0 by lia.
    apply substring_0_0.
Qed.

Lemma jsonString_without_closing_brace_witness :
  occurs "}" "12{ apiKey" = false ∧ jsonString "12{ apiKey" = "12".
Proof.
  split; [reflexivity|].
  apply (jsonString_without_closing_brace "12{ apiKey"). reflexivity.
Defined.

End SetupStrings.

(** ** Saving and loading the configuration *)

Section SetupExtras.

Import Setup.

Variable Num : Type.
Variable numTruthy : Num → bool.
Variable JSON_parse : string → option (Json Num).
Variable JSON_stringify : Json Num → string.
Variable initializes : Json Num → bool.

Lemma missing_false (v : Json Num) key :
  missing numTruthy v key = Some false →
  ∃ fields x, v = JObj fields ∧ field key fields = Some x
              ∧ truthy numTruthy x = true.
Proof.
  unfold missing, prop. destruct v as [| | | | |fields]; try discriminate.
  destruct (field key fields) as [x|] eqn:Hf; [|discriminate].
  intros [= H]. exists fields, x. by apply negb_false_iff in H.
Qed.

Lemma invalidMessage_nonempty : invalidMessage ≠ EmptyString.
Proof. discriminate. Qed.

Lemma handleSaveConfig_cases configInput (b : Browser Num) :
  (∃ fields k p,
     JSON_parse (jsonString configInput) = Some (JObj fields)
     ∧ field "apiKey" fields = Some k ∧ truthy numTruthy k = true
     ∧ field "projectId" fields = Some p ∧ truthy numTruthy p = true
     ∧ handleSaveConfig numTruthy JSON_parse JSON_stringify configInput b
       = mkBrowser (Some (JSON_stringify (JObj fields))) (Some (JObj fields))
           EmptyString)
  ∨ handleSaveConfig numTruthy JSON_parse JSON_stringify configInput b
    = rejectConfig b.
Proof.
  unfold handleSaveConfig.
  destruct (JSON_parse (jsonString configInput)) as [v|]; [|by right].
  destruct (missing numTruthy v "apiKey") as [[]|] eqn:Hk; try by right.
  destruct (missing numTruthy v "projectId") as [[]|] eqn:Hp; try by right.
  left. apply missing_false in Hk as (fields & k & -> & Hk & Hkt).
  apply missing_false in Hp as (fields' & p & [= <-] & Hp & Hpt).
  exists fields, k, p. by repeat split.
Qed.

(** Saving a configuration has two outcomes only.  Either the text between
    the braces parses to an object whose [apiKey] and [projectId] are both
    present and truthy: then its printed form is stored in [localStorage],
    the object becomes the configuration of the app, the error is empty and
    the setup screen is left.  Or the error is the one message about invalid
    JSON, and neither [localStorage] nor the configuration has changed. *)
Theorem save_accepts_only_keyed_objects configInput (b : Browser Num) :
  let b' := handleSaveConfig numTruthy JSON_parse JSON_stringify configInput b
  in
  (∃ fields k p,
     JSON_parse (jsonString configInput) = Some (JObj fields)
     ∧ field "apiKey" fields = Some k ∧ truthy numTruthy k = true
     ∧ field "projectId" fields = Some p ∧ truthy numTruthy p = true
     ∧ localStorage b' = Some (JSON_stringify (JObj fields))
     ∧ firebaseConfig b' = Some (JObj fields)
     ∧ error b' = EmptyString
     ∧ configured numTruthy b' = true)
  ∨ (error b' = invalidMessage
     ∧ localStorage b' = localStorage b
     ∧ firebaseConfig b' = firebaseConfig b).
Proof.
  cbv zeta.
  destruct (handleSaveConfig_cases configInput b)
    as [(fields & k & p & Hparse & Hk & Hkt & Hp & Hpt & ->)| ->].
  - left. exists fields, k, p. by repeat split.
  - by right.
Qed.

(** When the text that the app reads at start (the injected configuration
    if there is one, else the stored one) does not parse, the stored item is
    removed, even if it was not the text that failed, no configuration is
    set, and the app shows the setup screen whatever the route and the
    session. *)
Theorem corrupt_config_is_cleared injected (b : Browser Num) text :
  Js.or injected (localStorage b) = Some text →
  text ≠ EmptyString →
  JSON_parse text = None →
  let b' := loadConfig JSON_parse injected b in
  localStorage b' = None ∧ firebaseConfig b' = None
  ∧ ∀ authLoading ctx route,
      renderContent (configured numTruthy b') authLoading ctx route
      = FirebaseSetup.
Proof.
  intros Hor Hne Hparse. cbv zeta.
  assert (Ht : Js.truthy (Some text) = true) by by destruct text.
  assert (Hb : loadConfig JSON_parse injected b
               = mkBrowser None None (error b)).
  { unfold loadConfig, Js.or in *.
    destruct (Js.truthy injected) eqn:Hi.
    - subst injected. cbn. by rewrite Hparse.
    - rewrite Hor, Ht. cbn. by rewrite Hparse. }
  rewrite Hb. by repeat split.
Qed.

(** What becomes of a configuration that was saved.  The second effect
    initialises Firebase with it.  If that succeeds (or the services were
    set already), the stored item stays, and when the app is opened the next
    time without an injected configuration, the first effect sets the very
    same configuration from [localStorage], provided the engine parses what
    it printed for this configuration, and printed something.  If the
    initialisation throws, the effect sets the configuration back to [null]
    and removes the stored item: the setup screen is shown again, and the
    next time the app is opened it finds no configuration. *)
Theorem saved_config_is_loaded_again configInput injected firebaseServices
  (b : Browser Num) c :
  let b' := handleSaveConfig numTruthy JSON_parse JSON_stringify configInput b
  in
  let started := initFirebase numTruthy initializes firebaseServices b' in
  let opened :=
    loadConfig JSON_parse injected
      (mkBrowser (localStorage started.2) None EmptyString) in
  error b' = EmptyString →
  firebaseConfig b' = Some c →
  JSON_parse (JSON_stringify c) = Some c →
  JSON_stringify c ≠ EmptyString →
  Js.truthy injected = false →
  if firebaseServices || initializes c
  then started = (true, b')
       ∧ firebaseConfig opened = Some c
       ∧ localStorage opened = Some (JSON_stringify c)
       ∧ configured numTruthy opened = true
  else started.1 = false
       ∧ localStorage started.2 = None
       ∧ configured numTruthy started.2 = false
       ∧ firebaseConfig opened = None
       ∧ configured numTruthy opened = false.
Proof.
  cbv zeta. intros Herr Hc Hround Hprinted Hinj.
  destruct (handleSaveConfig_cases configInput b)
    as [(fields & _ & _ & _ & _ & _ & _ & _ & Hsave)|Hrej];
    [|rewrite Hrej in Herr; by destruct invalidMessage_nonempty].
  rewrite Hsave in Hc |- *. cbn [firebaseConfig] in Hc. injection Hc as <-.
  assert (Ht : Js.truthy (Some (JSON_stringify (JObj fields))) = true).
  { by destruct (JSON_stringify (JObj fields)). }
  unfold initFirebase, configured. cbn [firebaseConfig truthy andb].
  destruct firebaseServices; cbn [negb orb].
  - unfold loadConfig. rewrite Hinj. cbn [snd localStorage].
    rewrite Ht. cbn [mbind option_bind]. rewrite Hround. by repeat split.
  - destruct (initializes (JObj fields)).
    + unfold loadConfig. rewrite Hinj. cbn [snd localStorage].
      rewrite Ht. cbn [mbind option_bind]. rewrite Hround. by repeat split.
    + unfold loadConfig. rewrite Hinj. cbn [snd localStorage Js.truthy].
      by repeat split.
Qed.

End SetupExtras.

Lemma corrupt_config_is_cleared_witness :
  let b := Setup.mkBrowser (Some Demo2.configText) None EmptyString in
  Js.or (Some "oops") (Setup.localStorage b) = Some "oops"
  ∧ "oops" ≠ EmptyString
  ∧ Demo2.parse "oops" = None
  ∧ Setup.localStorage (Setup.loadConfig Demo2.parse (Some "oops") b) = None
  ∧ renderContent
      (Setup.configured Demo2.nonZero
         (Setup.loadConfig Demo2.parse (Some "oops") b))
      false (Demo.customer Demo.asha) "/services" = FirebaseSetup.
Proof.
  cbv zeta.
  split; [reflexivity|]. split; [discriminate|]. split; [reflexivity|].
  destruct (corrupt_config_is_cleared Z Demo2.nonZero Demo2.parse (Some "oops")
              (Setup.mkBrowser (Some Demo2.configText) None EmptyString)
              "oops" eq_refl ltac:(discriminate) eq_refl) as (H1 & _ & H3).
  split; [exact H1 | exact (H3 false (Demo.customer Demo.asha) "/services")].
Defined.

Lemma saved_config_is_loaded_again_witness :
  let b' := Setup.handleSaveConfig Demo2.nonZero Demo2.parse Demo2.stringify
              Demo2.pasted Demo2.emptyBrowser in
  let started := Setup.initFirebase Demo2.nonZero (λ _, true) false b' in
  Setup.error b' = EmptyString
  ∧ Setup.firebaseConfig b' = Some Demo2.config
  ∧ Demo2.parse (Demo2.stringify Demo2.config) = Some Demo2.config
  ∧ Demo2.stringify Demo2.config ≠ EmptyString
  ∧ started = (true, b')
  ∧ Setup.firebaseConfig
      (Setup.loadConfig Demo2.parse None
         (Setup.mkBrowser (Setup.localStorage started.2) None EmptyString))
    = Some Demo2.config.
Proof.
  cbv zeta.
  split; [reflexivity|]. split; [reflexivity|]. split; [reflexivity|].
  split; [discriminate|].
  destruct (saved_config_is_loaded_again Z Demo2.nonZero Demo2.parse
              Demo2.stringify (λ _, true) Demo2.pasted None false
              Demo2.emptyBrowser Demo2.config eq_refl eq_refl eq_refl
              ltac:(discriminate) eq_refl) as (H1 & H2 & _).
  split; [exact H1 | exact H2].
Defined.

(** The same configuration when Firebase does not start with it: the stored
    item is gone, and the next load finds nothing. *)
Example saved_config_dropped_when_init_fails :
  let b' := Setup.handleSaveConfig Demo2.nonZero Demo2.parse Demo2.stringify
              Demo2.pasted Demo2.emptyBrowser in
  let started := Setup.initFirebase Demo2.nonZero (λ _, false) false b' in
  Setup.localStorage b' = Some Demo2.configText
  ∧ Setup.localStorage started.2 = None
  ∧ Setup.configured Demo2.nonZero started.2 = false
  ∧ Setup.firebaseConfig
      (Setup.loadConfig Demo2.parse None
         (Setup.mkBrowser (Setup.localStorage started.2) None EmptyString))
    = None.
Proof. cbv zeta. repeat split. Qed.

(** ** The login page *)

Section LoginExtras.

Import Login.

(** Once a phone sign-in is pending it stays so: nothing on the page sets
    [confirmationResult] back to [null]. *)
Lemma step_keeps_pending st ev :
  is_Some (confirmationResult st) → is_Some (confirmationResult (step st ev)).
Proof.
  intros H. destruct ev as [| | | | | |r|r|r]; cbn; try done.
  - destruct r as [|err]; cbn; [done|]. by destruct (codeIs _ _).
  - by destruct r.
  - destruct H as [h H]. unfold handleOtpSubmit. cbn. rewrite H.
    by destruct r.
Qed.

Lemma step_otp_pending st ev :
  (mode st = "otp" → is_Some (confirmationResult st)) →
  mode (step st ev) = "otp" → is_Some (confirmationResult (step st ev)).
Proof.
  intros IH Hm.
  destruct ev as [| | | | | |r|r|r]; cbn in Hm |- *; try discriminate;
    try (by apply IH).
  - destruct r as [|err]; cbn in *; [by apply IH|].
    destruct (codeIs _ _); by apply IH.
  - destruct r; cbn in *; [done | by apply IH].
  - apply (step_keeps_pending st (OtpSubmit r)). apply IH.
    unfold handleOtpSubmit in Hm. cbn in Hm.
    destruct (confirmationResult st); [by destruct r | done].
Qed.

Lemma steps_snoc evs ev st : steps (evs ++ [ev]) st = step (steps evs st) ev.
Proof. unfold steps. by rewrite fold_left_app. Qed.

Lemma steps_otp_pending evs :
  mode (steps evs initial) = "otp" →
  is_Some (confirmationResult (steps evs initial)).
Proof.
  induction evs as [|ev evs IH] using rev_ind; [discriminate|].
  rewrite steps_snoc. by apply step_otp_pending.
Qed.

(** Whatever has happened on the login page since it was opened, when it
    shows the OTP form a phone sign-in is pending, so that submitting the
    form always asks the provider to confirm the code: the branch that
    reports "Something went wrong. Please try sending OTP again." is never
    taken from that form, and the outcome is the navigation to the services
    or the message about an invalid OTP. *)
Theorem otp_form_has_pending_sign_in evs result :
  let st := steps evs initial in
  mode st = "otp" →
  is_Some (confirmationResult st)
  ∧ handleOtpSubmit result st
    = match result with
      | Fulfilled _ => navigate "/services" (setError EmptyString st)
      | Failed _ =>
          setError "Invalid OTP. Please try again." (setError EmptyString st)
      end.
Proof.
  cbv zeta. intros Hm. pose proof (steps_otp_pending evs Hm) as [h Hh].
  split; [by exists h|]. unfold handleOtpSubmit. cbn. by rewrite Hh.
Qed.

Lemma otp_form_has_pending_sign_in_witness :
  let evs := [SignInWithMobile; TypePhoneNumber "9876543210";
              PhoneLogin (Fulfilled "h")] in
  mode (steps evs initial) = "otp"
  ∧ route (handleOtpSubmit (Fulfilled tt) (steps evs initial)) = "/services".
Proof.
  cbv zeta. split; [reflexivity|].
  destruct (otp_form_has_pending_sign_in
              [SignInWithMobile; TypePhoneNumber "9876543210";
               PhoneLogin (Fulfilled "h")] (Fulfilled tt) eq_refl) as [_ H].
  rewrite H. reflexivity.
Defined.

Lemma step_to_services st ev :
  route (step st ev) = "/services" →
  route st = "/services" ∨ signedIn st ev.
Proof.
  destruct ev as [| | | | | |r|r|r]; cbn; auto; try discriminate.
  - destruct r as [|err]; cbn; [auto|]. destruct (codeIs _ _); auto.
  - destruct r as [|err]; cbn; auto.
  - unfold handleOtpSubmit. cbn.
    destruct (confirmationResult st) eqn:Hc; [|auto].
    destruct r; cbn; auto.
Qed.

(** The login page sends the visitor to the services only through a
    sign-in that succeeded: if, after any sequence of clicks, inputs and
    settled sign-in calls, the route is [/services], then one of the events
    was a Google sign-in that was fulfilled, or the confirmation of an OTP
    that was fulfilled for a pending phone sign-in.  A failed or missing
    sign-in never navigates there. *)
Theorem services_only_after_sign_in evs :
  route (steps evs initial) = "/services" →
  ∃ before ev after,
    evs = before ++ ev :: after ∧ signedIn (steps before initial) ev.
Proof.
  induction evs as [|ev evs IH] using rev_ind; [discriminate|].
  rewrite steps_snoc. intros H.
  destruct (step_to_services _ _ H) as [Hr|Hs].
  - destruct (IH Hr) as (b & e & a & -> & Hs).
    exists b, e, (a ++ [ev]). by rewrite <-app_assoc.
  - by exists evs, ev, [].
Qed.

Lemma services_only_after_sign_in_witness :
  let evs := [GoogleLogin (Failed (mkAuthError None "popup closed"));
              GoogleLogin (Fulfilled tt)] in
  route (steps evs initial) = "/services"
  ∧ ∃ before ev after,
      evs = before ++ ev :: after ∧ signedIn (steps before initial) ev.
Proof.
  cbv zeta. split; [reflexivity|].
  apply (services_only_after_sign_in
           [GoogleLogin (Failed (mkAuthError None "popup closed"));
            GoogleLogin (Fulfilled tt)]).
  reflexivity.
Defined.

End LoginExtras.
